(** * Ferment status: the stress computation of [src/server.js]

    A shallow embedding of [locationMultiplier] and [calculateFermentStatus]
    and the properties of the stress accumulation and of the label
    thresholds.

    JavaScript numbers are binary64 floats.  The algorithm is written once,
    over an interface [JSNumber] holding exactly the operations the source
    applies to numbers, and is studied at two instances:
    - [Exact]: rationals extended with NaN and the two infinities, i.e. the
      IEEE 754 special values with rounding and the sign of zero left out;
      the equality of a sum of segments with one product holds here only;
    - [Binary64]: Rocq's primitive binary64 floats, whose operations are
      those of a JavaScript engine; the scenarios are evaluated here, and
      the statements are proved here from the IEEE 754 specification of the
      primitive operations: signs, comparisons, exactly held integers, and
      the monotonicity of rounding to nearest, from which the stress is
      shown never to decrease as the reference time advances.
    Theorems that only depend on the control flow hold at every instance.

    The development then covers what surrounds the computation: the text
    of a query ([sql] of [src/db.js]), the grouping of the event rows and
    the pairing of every ferment with its status in the handler of
    [GET /], the two choices [renderPage] makes (the colour of the badge,
    the target of the move button), and the routes that feed and move a
    ferment, over a model of the two tables. *)

From Stdlib Require Import ZArith QArith Qpower Qfield List String Bool Lia Lqa.
From Stdlib Require Import Floats.
From Stdlib Require Import Sorting.Permutation Sorting.Sorted DecimalString.
From Stdlib Require Uint63.
Import ListNotations.

Local Open Scope string_scope.
Local Open Scope Z_scope.

(** ** Data *)

(** A [Date] object holds a time value: a whole number of milliseconds since
    the epoch, or NaN ("Invalid Date").  [new Date(x)] of a value that does
    not parse gives [InvalidDate]. *)
Inductive Date : Type :=
  | InvalidDate
  | TimeValue (ms : Z).

(** The operations of JavaScript numbers that the source uses. *)
Class JSNumber : Type := {
  number : Type;
  NaN : number;
  of_Z : Z -> number;                       (* an integer-valued number *)
  nadd : number -> number -> number;        (* a + b *)
  nsub : number -> number -> number;        (* a - b *)
  nmul : number -> number -> number;        (* a * b *)
  ndiv : number -> number -> number;        (* a / b *)
  nlt : number -> number -> bool;           (* a < b *)
  isFinite : number -> bool;
  strict_eq : number -> number -> bool      (* a === b, used in statements *)
}.

(** A row of [ferment_events] with [event_type = 'move'].  [created_at] is a
    timestamp column, which the driver hands over as a valid [Date]: the
    field holds its time value.  [new_storage_location] is nullable. *)
Record MoveEvent : Type := {
  created_at : Z;
  new_storage_location : option string
}.

(** Truthiness of a nullable string: [null] and the empty string are falsy. *)
Definition truthy (s : option string) : bool :=
  match s with
  | None => false
  | Some v => negb (String.eqb v "")
  end.

Section Status.
Context {N : JSNumber}.

(** A row of [ferments]; [last_fed_at] holds [new Date(ferment.last_fed_at)]. *)
Record Ferment : Type := {
  base_feed_interval_hours : number;
  last_fed_at : Date;
  storage_location : string
}.

Record Status : Type := {
  stress : number;
  ratio : number;
  label : string
}.

(** [ToNumber] of a [Date]. *)
Definition time_of (d : Date) : number :=
  match d with
  | InvalidDate => NaN
  | TimeValue ms => of_Z ms
  end.

(** The literal [0.7]: the number nearest to 7/10, which is what the
    correctly rounded quotient of 7 by 10 is. *)
Definition dec_0_7 : number := ndiv (of_Z 7) (of_Z 10).

(** [36e5], the milliseconds of an hour. *)
Definition ms_per_hour : number := of_Z 3600000.

(** ** [locationMultiplier] *)
Definition locationMultiplier (location : string) : number :=
  if String.eqb location "counter" then of_Z 1
  else if String.eqb location "fridge" then ndiv (of_Z 1) (of_Z 3)
  else of_Z 1.

(** ** The sort of the events

    [moveEvents.slice().sort(cmp)] with [cmp] the difference of the time
    values.  [Array.prototype.sort] is stable, and the comparator is a total
    preorder on valid dates, so the result is the unique stable ascending
    arrangement: the one insertion from the right computes. *)
Fixpoint insert_event (ev : MoveEvent) (l : list MoveEvent) : list MoveEvent :=
  match l with
  | [] => [ev]
  | y :: l' =>
      if created_at ev <=? created_at y then ev :: y :: l'
      else y :: insert_event ev l'
  end.

Fixpoint sort_events (l : list MoveEvent) : list MoveEvent :=
  match l with
  | [] => []
  | ev :: l' => insert_event ev (sort_events l')
  end.

(** ** The loop over the sorted events *)

(** The three variables the loop updates. *)
Record Acc : Type := {
  cursor : Z;
  currentLocation : string;
  stressUnits : number
}.

(** [hours * locationMultiplier(currentLocation)] is added when [hours > 0]. *)
Definition add_segment (s hours : number) (location : string) : number :=
  if nlt (of_Z 0) hours then nadd s (nmul hours (locationMultiplier location))
  else s.

(** [if (ev.new_storage_location) currentLocation = ev.new_storage_location]. *)
Definition apply_move (location : string) (ev : MoveEvent) : string :=
  match new_storage_location ev with
  | Some v => if truthy (Some v) then v else location
  | None => location
  end.

(** One iteration of [for (const ev of events)]. *)
Definition loop_body (a : Acc) (ev : MoveEvent) : Acc :=
  let t := created_at ev in
  if t <=? cursor a then a
  else
    let hours := ndiv (nsub (of_Z t) (of_Z (cursor a))) ms_per_hour in
    {| cursor := t;
       currentLocation := apply_move (currentLocation a) ev;
       stressUnits := add_segment (stressUnits a) hours (currentLocation a) |}.

Definition run_loop (events : list MoveEvent) (a : Acc) : Acc :=
  fold_left loop_body events a.

(** The variables as they are set before the loop. *)
Definition start (ferment : Ferment) (lastFed : Z) : Acc :=
  {| cursor := lastFed;
     currentLocation := storage_location ferment;
     stressUnits := of_Z 0 |}.

(** The chain of [if]s that picks the label. *)
Definition label_of (r : number) : string :=
  if negb (isFinite r) then "unknown"
  else if nlt r dec_0_7 then "happy"
  else if nlt r (of_Z 1) then "due_soon"
  else "needs_feed".

(** ** [calculateFermentStatus] *)
Definition calculateFermentStatus
    (ferment : Ferment) (moveEvents : list MoveEvent) (now : Date) : Status :=
  let baseInterval := base_feed_interval_hours ferment in
  match last_fed_at ferment with
  | InvalidDate => {| stress := of_Z 0; ratio := of_Z 0; label := "unknown" |}
  | TimeValue lastFed =>
      let events := sort_events moveEvents in
      let a := run_loop events (start ferment lastFed) in
      let hoursFinal :=
        ndiv (nsub (time_of now) (of_Z (cursor a))) ms_per_hour in
      let total := add_segment (stressUnits a) hoursFinal (currentLocation a) in
      let r := ndiv total baseInterval in
      {| stress := total; ratio := r; label := label_of r |}
  end.

End Status.

Arguments Ferment N : clear implicits.
Arguments Status N : clear implicits.
Arguments Acc N : clear implicits.

(** ** Exact numbers *)

(** Rationals with the three special values of IEEE 754. *)
Inductive xnum : Type :=
  | XNaN
  | XInf (negative : bool)
  | XFin (q : Q).

Definition Qltb (a b : Q) : bool := negb (Qle_bool b a).

Definition xopp (a : xnum) : xnum :=
  match a with
  | XNaN => XNaN
  | XInf s => XInf (negb s)
  | XFin q => XFin (- q)
  end.

Definition xadd (a b : xnum) : xnum :=
  match a, b with
  | XNaN, _ | _, XNaN => XNaN
  | XInf s, XInf s' => if Bool.eqb s s' then XInf s else XNaN
  | XInf s, XFin _ | XFin _, XInf s => XInf s
  | XFin p, XFin q => XFin (p + q)
  end.

Definition xsub (a b : xnum) : xnum := xadd a (xopp b).

Definition xmul (a b : xnum) : xnum :=
  match a, b with
  | XNaN, _ | _, XNaN => XNaN
  | XInf s, XInf s' => XInf (xorb s s')
  | XInf s, XFin q | XFin q, XInf s =>
      if Qeq_bool q 0 then XNaN else XInf (xorb s (Qltb q 0))
  | XFin p, XFin q => XFin (p * q)
  end.

Definition xdiv (a b : xnum) : xnum :=
  match a, b with
  | XNaN, _ | _, XNaN => XNaN
  | XInf _, XInf _ => XNaN
  | XInf s, XFin q => XInf (xorb s (Qltb q 0))
  | XFin _, XInf _ => XFin 0
  | XFin p, XFin q =>
      if Qeq_bool q 0
      then (if Qeq_bool p 0 then XNaN else XInf (Qltb p 0))
      else XFin (p / q)
  end.

Definition xlt (a b : xnum) : bool :=
  match a, b with
  | XNaN, _ | _, XNaN => false
  | XInf s, XInf s' => s && negb s'
  | XInf s, XFin _ => s
  | XFin _, XInf s => negb s
  | XFin p, XFin q => Qltb p q
  end.

Definition xle (a b : xnum) : bool :=
  match a, b with
  | XNaN, _ | _, XNaN => false
  | XInf s, XInf s' => s || negb s'
  | XInf s, XFin _ => s
  | XFin _, XInf s => negb s
  | XFin p, XFin q => Qle_bool p q
  end.

Definition xeqb (a b : xnum) : bool :=
  match a, b with
  | XInf s, XInf s' => Bool.eqb s s'
  | XFin p, XFin q => Qeq_bool p q
  | _, _ => false
  end.

Definition xfinite (a : xnum) : bool :=
  match a with
  | XFin _ => true
  | _ => false
  end.

Definition Exact : JSNumber :=
  {| number := xnum;
     NaN := XNaN;
     of_Z := fun z => XFin (inject_Z z);
     nadd := xadd;
     nsub := xsub;
     nmul := xmul;
     ndiv := xdiv;
     nlt := xlt;
     isFinite := xfinite;
     strict_eq := xeqb |}.

(** ** Binary64 numbers *)

(** The float of an integer; exact on every time value a [Date] can hold
    (at most 8.64e15 in absolute value, below 2^53). *)
Definition float_of_Z (z : Z) : float :=
  if z <? 0 then PrimFloat.opp (PrimFloat.of_uint63 (Uint63.of_Z (- z)))
  else PrimFloat.of_uint63 (Uint63.of_Z z).

Definition Binary64 : JSNumber :=
  {| number := float;
     NaN := PrimFloat.nan;
     of_Z := float_of_Z;
     nadd := PrimFloat.add;
     nsub := PrimFloat.sub;
     nmul := PrimFloat.mul;
     ndiv := PrimFloat.div;
     nlt := PrimFloat.ltb;
     isFinite := PrimFloat.is_finite;
     strict_eq := PrimFloat.eqb |}.

(** ** The spec's [hoursBetween]

    The source has no function of this name; the spec uses it for the
    signed number of hours from one instant to another. *)
Definition hoursBetween {N : JSNumber} (from to : Date) : number :=
  ndiv (nsub (time_of to) (time_of from)) ms_per_hour.

(** ** The quantities of the exact instance, as rationals *)

(** The multiplier as a rational. *)
Definition mult_q (location : string) : Q :=
  if String.eqb location "counter" then 1%Q
  else if String.eqb location "fridge" then (1 / 3)%Q
  else 1%Q.

(** The signed hours from one time value to another. *)
Definition hours_q (from to : Z) : Q :=
  ((inject_Z to + - inject_Z from) / inject_Z 3600000)%Q.

(** Division by the constant becomes a product, which [lra] accepts. *)
Ltac hours_norm :=
  unfold hours_q, Qdiv in *;
  change (/ inject_Z 3600000)%Q with (1 # 3600000)%Q in *.

(** ** Binary64 numbers read on their specification

    [Prim2SF] maps a primitive float to its sign, mantissa and exponent. *)

(** Not NaN, with the given sign bit. *)
Definition sf_signed (s : bool) (x : spec_float) : bool :=
  match x with
  | S754_nan => false
  | S754_zero s' | S754_infinity s' | S754_finite s' _ _ => Bool.eqb s s'
  end.

(** Zero of either sign, a positive finite number or +Infinity. *)
Definition sf_nonneg (x : spec_float) : bool :=
  match x with
  | S754_zero _ => true
  | S754_infinity s | S754_finite s _ _ => negb s
  | S754_nan => false
  end.

(** A positive finite number or +Infinity. *)
Definition sf_pos (x : spec_float) : bool :=
  match x with
  | S754_infinity false | S754_finite false _ _ => true
  | _ => false
  end.

(** [x] is the integer [z], held exactly. *)
Definition sf_holds (x : spec_float) (z : Z) : Prop :=
  match x with
  | S754_zero s => s = false /\ z = 0
  | S754_finite s m e =>
      e <= 0 /\ Z.pos m = Z.abs z * 2 ^ (- e) /\ s = (z <? 0)
  | _ => False
  end.

(** The time values a [Date] can hold: at most 8.64e15 ms either side of
    the epoch, all of them below 2^53. *)
Definition valid_time (ms : Z) : Prop :=
  - 8640000000000000 <= ms <= 8640000000000000.

(** ** Real values and rounding

    [pow2 e] is [2^e] as a rational, for any integer [e]. *)
Definition pow2 (e : Z) : Q := (2 ^ e)%Q.

(** The real [x], in units of [2^e], sits above the integer [m] at the
    place the location [l] tells: on it, below, at or above the middle of
    [m] and [m + 1]. *)
Definition located (m e : Z) (l : location) (x : Q) : Prop :=
  let y := (x * pow2 (- e))%Q in
  match l with
  | loc_Exact => (y == inject_Z m)%Q
  | loc_Inexact Lt => (inject_Z m < y /\ y < inject_Z m + (1 # 2))%Q
  | loc_Inexact Eq => (y == inject_Z m + (1 # 2))%Q
  | loc_Inexact Gt => (inject_Z m + (1 # 2) < y /\ y < inject_Z m + 1)%Q
  end.

(** The float a rounded mantissa [M] at exponent [E] is packed into. *)
Definition pack (M E : Z) : spec_float :=
  match M with
  | Z.pos p =>
      if M <? 2 ^ prec
      then (if E <=? emax - prec then S754_finite false p E
            else S754_infinity false)
      else (if E + 1 <=? emax - prec
            then S754_finite false (Pos.div2 p) (E + 1)
            else S754_infinity false)
  | _ => S754_zero false
  end.

(** [f] is the result of rounding the positive real [x]: [x] is handed to
    [binary_round_aux] as a mantissa, an exponent and a location, with no
    digit missing. *)
Definition rounds (x : Q) (f : spec_float) : Prop :=
  exists (m : positive) (e : Z) (l : location),
    located (Z.pos m) e l x /\
    e <= fexp prec emax (Z.pos (digits2_pos m) + e) /\
    f = binary_round_aux prec emax false (Z.pos m) e l.

(** The value of a finite float. *)
Definition SF2Q (f : spec_float) : Q :=
  match f with
  | S754_finite s m e =>
      ((if s then - inject_Z (Z.pos m) else inject_Z (Z.pos m)) * pow2 e)%Q
  | _ => 0%Q
  end.

(** ** Inputs of the scenarios *)

Definition hour : Z := 3600000.

Definition move (t : Z) (location : option string) : MoveEvent :=
  {| created_at := t; new_storage_location := location |}.

Definition ferment_of {N : JSNumber}
    (interval : number) (fed : Date) (location : string) : Ferment N :=
  {| base_feed_interval_hours := interval;
     last_fed_at := fed;
     storage_location := location |}.

(** * The rest of the program: definitions *)

(** ** The order of the events and the kind of a location *)

Definition le_time (e e' : MoveEvent) : Prop := created_at e <= created_at e'.
Definition lt_time (e e' : MoveEvent) : Prop := created_at e < created_at e'.

(** The sorted lists with and without an extra event [e'], cut where [e']
    sits; [front] lists events known to sit before it. *)
Definition tie_split (e' : MoveEvent) (front S S' : list MoveEvent) : Prop :=
  exists A B,
    S = (A ++ e' :: B)%list /\ S' = (A ++ B)%list /\
    (forall y, In y A -> created_at y <= created_at e') /\
    (forall y, In y B -> created_at e' <= created_at y) /\
    (forall y, In y front -> In y A).

(** Whether a location is the fridge: all a multiplier depends on. *)
Definition is_fridge (location : string) : bool :=
  String.eqb location "fridge".

(** What an event does to the multiplier: nothing ([None]) when its location
    is falsy, else whether it moves to the fridge. *)
Definition move_class (e : MoveEvent) : option bool :=
  match new_storage_location e with
  | Some v => if truthy (Some v) then Some (is_fridge v) else None
  | None => None
  end.

(** Two events at the same time with the same effect on the multiplier. *)
Definition same_speed_event (e e' : MoveEvent) : Prop :=
  created_at e = created_at e' /\ move_class e = move_class e'.

(** Two states of the loop that agree up to the name of the location. *)
Definition same_speed_acc {N : JSNumber} (a a' : Acc N) : Prop :=
  cursor a = cursor a' /\ stressUnits a = stressUnits a' /\
  is_fridge (currentLocation a) = is_fridge (currentLocation a').

(** ** [sql] of [src/db.js]: the text of the query

    [sql] is a template tag: [strings] are the literal chunks, [params] the
    interpolated values, [undefined] being [None].  The text is the
    reduction of the chunks, each followed by [$i+1] when [params[i]] is not
    [undefined]; the values go to the driver beside the text. *)
Definition placeholder (i : nat) : string :=
  ("$" ++ NilEmpty.string_of_uint (Nat.to_uint (i + 1)))%string.

Fixpoint sql_text_from {V : Type} (i : nat) (acc : string)
    (strings : list string) (params : list (option V)) : string :=
  match strings with
  | [] => acc
  | str :: rest =>
      let mark :=
        match nth_error params i with
        | Some (Some _) => placeholder i
        | _ => ""
        end in
      sql_text_from (S i) (acc ++ str ++ mark)%string rest params
  end.

Definition sql_text {V : Type}
    (strings : list string) (params : list (option V)) : string :=
  sql_text_from 0 "" strings params.

(** Which parameters are defined. *)
Definition defined {V : Type} (params : list (option V)) : list bool :=
  map (fun p => match p with Some _ => true | None => false end) params.

(** ** The home page: the events of each ferment

    A row of [ferment_events], as the second query of [GET /] returns it:
    the ferment it belongs to, its type, and the two columns the status
    reads.  The key of the row itself is not read. *)
Record EventRow : Type := {
  ferment_id : string;
  event_type : string;
  event : MoveEvent
}.

(** A row of [ferments], as the first query returns it: its key and the
    columns the status reads ([name], [type], [started_at] and [created_at]
    are only printed). *)
Record FermentRow {N : JSNumber} : Type := {
  row_id : string;
  ferment : Ferment N
}.
Arguments FermentRow N : clear implicits.

(** The object [movesByFerment]: keys with the arrays they hold, in the
    order the keys were added.  The keys are the ids of ferments. *)
Definition MovesByFerment : Type := list (string * list EventRow).

(** [acc[key]], [None] being [undefined]. *)
Fixpoint moves_get (key : string) (acc : MovesByFerment)
    : option (list EventRow) :=
  match acc with
  | [] => None
  | (k, v) :: acc' => if String.eqb k key then Some v else moves_get key acc'
  end.

(** [acc[key] = value]. *)
Fixpoint moves_set (key : string) (value : list EventRow)
    (acc : MovesByFerment) : MovesByFerment :=
  match acc with
  | [] => [(key, value)]
  | (k, v) :: acc' =>
      if String.eqb k key then (k, value) :: acc'
      else (k, v) :: moves_set key value acc'
  end.

(** The callback of [rows.reduce]: an array is truthy, so the test fails
    only on a missing key. *)
Definition group_step (acc : MovesByFerment) (ev : EventRow) : MovesByFerment :=
  let acc1 :=
    match moves_get (ferment_id ev) acc with
    | Some _ => acc
    | None => moves_set (ferment_id ev) [] acc
    end in
  match moves_get (ferment_id ev) acc1 with
  | Some arr => moves_set (ferment_id ev) (arr ++ [ev])%list acc1
  | None => acc1
  end.

Definition group_moves (rows : list EventRow) : MovesByFerment :=
  fold_left group_step rows [].

(** [movesByFerment[f.id] || []]. *)
Definition moves_of (acc : MovesByFerment) (key : string) : list EventRow :=
  match moves_get key acc with
  | Some arr => arr
  | None => []
  end.

(** The part of the handler of [GET /] between the queries and the
    rendering: [ferments] and [rows] are the results of the two queries, the
    second one being run only when there are ferments. *)
Definition ferments_with_status {N : JSNumber}
    (ferments : list (FermentRow N)) (rows : list EventRow) (now : Date)
    : list (FermentRow N * Status N) :=
  let ids := map row_id ferments in
  let movesByFerment :=
    if (0 <? List.length ids)%nat then group_moves rows else [] in
  map (fun f =>
         let moves := moves_of movesByFerment (row_id f) in
         (f, calculateFermentStatus (ferment f) (map event moves) now))
      ferments.

(** ** [renderPage]: the two choices it makes *)

(** The colour of the badge. *)
Definition statusColour (label : string) : string :=
  let colour := "#4ade80" in
  let colour := if String.eqb label "due_soon" then "#fbbf24" else colour in
  if String.eqb label "needs_feed" then "#f87171" else colour.

(** The location the move button sends. *)
Definition moveTarget (storage_location : string) : string :=
  if String.eqb storage_location "counter" then "fridge" else "counter".

(** ** The routes that write

    The two tables, as far as the status reads them.  The handlers read the
    clock once ([new Date()]); its time value is the argument [now].  The
    statements are taken to succeed: the id is one the database accepts. *)
Record Db {N : JSNumber} : Type := {
  ferments_table : list (FermentRow N);
  events_table : list EventRow
}.
Arguments Db N : clear implicits.

Section Routes.
Context {N : JSNumber}.

(** [UPDATE ferments SET last_fed_at = nowIso WHERE id = id]. *)
Definition set_last_fed_at (id : string) (now : Z) (r : FermentRow N)
    : FermentRow N :=
  if String.eqb (row_id r) id
  then {| row_id := row_id r;
          ferment :=
            {| base_feed_interval_hours := base_feed_interval_hours (ferment r);
               last_fed_at := TimeValue now;
               storage_location := storage_location (ferment r) |} |}
  else r.

(** [UPDATE ferments SET storage_location = to WHERE id = id]. *)
Definition set_storage_location (id : string) (to : string) (r : FermentRow N)
    : FermentRow N :=
  if String.eqb (row_id r) id
  then {| row_id := row_id r;
          ferment :=
            {| base_feed_interval_hours := base_feed_interval_hours (ferment r);
               last_fed_at := last_fed_at (ferment r);
               storage_location := to |} |}
  else r.

(** [POST /ferments/:id/feed]. *)
Definition post_feed (id : string) (now : Z) (db : Db N) : Db N :=
  {| ferments_table := map (set_last_fed_at id now) (ferments_table db);
     events_table :=
       (events_table db
        ++ [{| ferment_id := id; event_type := "feed";
               event := {| created_at := now;
                           new_storage_location := None |} |}])%list |}.

(** [POST /ferments/:id/move] with a field [to]. *)
Definition post_move (id : string) (to : string) (now : Z) (db : Db N) : Db N :=
  {| ferments_table := map (set_storage_location id to) (ferments_table db);
     events_table :=
       (events_table db
        ++ [{| ferment_id := id; event_type := "move";
               event := {| created_at := now;
                           new_storage_location := Some to |} |}])%list |}.

(** The rows the second query of [GET /] selects; the query has no
    [ORDER BY], so a result set is any arrangement of them. *)
Definition selected_moves (db : Db N) : list EventRow :=
  filter (fun ev =>
            String.eqb (event_type ev) "move"
            && existsb (String.eqb (ferment_id ev))
                       (map row_id (ferments_table db)))
         (events_table db).

Definition moves_result (db : Db N) (rows : list EventRow) : Prop :=
  Permutation rows (selected_moves db).

(** The status [GET /] pairs with a ferment, given the result set. *)
Definition status_on_page (f : FermentRow N) (rows : list EventRow)
    (now : Date) : Status N :=
  calculateFermentStatus (ferment f)
    (map event (moves_of (group_moves rows) (row_id f))) now.

End Routes.

(** * Facts about the control flow, at every number instance *)

Section ControlFlow.
Context {N : JSNumber}.

Implicit Types (a : Acc N) (e : MoveEvent) (l : list MoveEvent).

Lemma loop_body_skip a e :
  created_at e <= cursor a -> loop_body a e = a.
Proof.
  intros Hle. unfold loop_body.
  destruct (created_at e <=? cursor a) eqn:E; [reflexivity | lia].
Qed.

Lemma loop_body_cursor a e :
  cursor (loop_body a e) = Z.max (cursor a) (created_at e).
Proof.
  unfold loop_body.
  destruct (created_at e <=? cursor a) eqn:E; simpl; lia.
Qed.

Lemma run_loop_cursor l : forall a,
  cursor (run_loop l a) = fold_left (fun c e => Z.max c (created_at e)) l (cursor a).
Proof.
  unfold run_loop.
  induction l as [|e l IH]; intros a; simpl; [reflexivity|].
  rewrite IH, loop_body_cursor. reflexivity.
Qed.

Lemma fold_max_ge l : forall c,
  c <= fold_left (fun c e => Z.max c (created_at e)) l c.
Proof.
  induction l as [|e l IH]; intros c; simpl; [lia|].
  specialize (IH (Z.max c (created_at e))). lia.
Qed.

Lemma fold_max_In l : forall c e,
  In e l -> created_at e <= fold_left (fun c e => Z.max c (created_at e)) l c.
Proof.
  induction l as [|x l IH]; intros c e Hin; simpl; [destruct Hin|].
  destruct Hin as [<- | Hin].
  - pose proof (fold_max_ge l (Z.max c (created_at x))). lia.
  - apply IH, Hin.
Qed.

Lemma fold_max_bound l : forall c n,
  c <= n -> (forall e, In e l -> created_at e <= n) ->
  fold_left (fun c e => Z.max c (created_at e)) l c <= n.
Proof.
  induction l as [|x l IH]; intros c n Hc Hall; simpl; [exact Hc|].
  apply IH.
  - specialize (Hall x (or_introl eq_refl)). lia.
  - intros e He. apply Hall. right. exact He.
Qed.

(** The cursor never moves back. *)
Lemma run_loop_cursor_ge l a : cursor a <= cursor (run_loop l a).
Proof. rewrite run_loop_cursor. apply fold_max_ge. Qed.

(** After the loop the cursor is at or after every event. *)
Lemma run_loop_cursor_In l a e :
  In e l -> created_at e <= cursor (run_loop l a).
Proof. intros Hin. rewrite run_loop_cursor. apply fold_max_In, Hin. Qed.

(** Events at or before a time the cursor has reached change nothing. *)
Lemma run_loop_filter (lastFed : Z) l : forall a,
  lastFed <= cursor a ->
  run_loop l a = run_loop (filter (fun e => lastFed <? created_at e) l) a.
Proof.
  unfold run_loop.
  induction l as [|e l IH]; intros a Ha; simpl; [reflexivity|].
  destruct (lastFed <? created_at e) eqn:E; simpl.
  - apply IH. rewrite loop_body_cursor. lia.
  - rewrite loop_body_skip by lia. apply IH, Ha.
Qed.

(** *** The sort *)

Lemma insert_event_In e x l : In x (insert_event e l) <-> x = e \/ In x l.
Proof.
  induction l as [|y l IH]; simpl.
  - intuition.
  - destruct (created_at e <=? created_at y); simpl.
    + intuition.
    + rewrite IH. intuition.
Qed.

Lemma sort_events_In x l : In x (sort_events l) <-> In x l.
Proof.
  induction l as [|y l IH]; simpl; [tauto|].
  rewrite insert_event_In, IH. intuition.
Qed.

Lemma filter_insert_event (lastFed : Z) e l :
  filter (fun e => lastFed <? created_at e) (insert_event e l)
  = if lastFed <? created_at e
    then insert_event e (filter (fun e => lastFed <? created_at e) l)
    else filter (fun e => lastFed <? created_at e) l.
Proof.
  induction l as [|y l IH]; simpl.
  - destruct (lastFed <? created_at e); reflexivity.
  - destruct (created_at e <=? created_at y) eqn:Exy; simpl.
    + destruct (lastFed <? created_at e) eqn:Ee.
      * assert (Ey : (lastFed <? created_at y) = true) by lia.
        rewrite Ey. simpl. rewrite Exy. reflexivity.
      * reflexivity.
    + rewrite IH.
      destruct (lastFed <? created_at y) eqn:Ey;
        destruct (lastFed <? created_at e) eqn:Ee; simpl;
        rewrite ?Exy; reflexivity.
Qed.

Lemma filter_sort_events (lastFed : Z) l :
  filter (fun e => lastFed <? created_at e) (sort_events l)
  = sort_events (filter (fun e => lastFed <? created_at e) l).
Proof.
  induction l as [|e l IH]; simpl; [reflexivity|].
  rewrite filter_insert_event, IH.
  destruct (lastFed <? created_at e); reflexivity.
Qed.

Lemma filter_stale (lastFed : Z) l :
  (forall e, In e l -> created_at e <= lastFed) ->
  filter (fun e => lastFed <? created_at e) l = [].
Proof.
  induction l as [|e l IH]; intros Hall; simpl; [reflexivity|].
  pose proof (Hall e (or_introl eq_refl)).
  destruct (lastFed <? created_at e) eqn:E; [lia|].
  apply IH. intros x Hx. apply Hall. right. exact Hx.
Qed.

(** The loop sees the same thing with and without stale events in front. *)
Lemma run_loop_prepend_stale (lastFed : Z) pre l a :
  lastFed <= cursor a ->
  (forall e, In e pre -> created_at e <= lastFed) ->
  run_loop (sort_events (pre ++ l)) a = run_loop (sort_events l) a.
Proof.
  intros Ha Hpre.
  rewrite (run_loop_filter lastFed (sort_events (pre ++ l))) by exact Ha.
  rewrite (run_loop_filter lastFed (sort_events l)) by exact Ha.
  rewrite !filter_sort_events, filter_app, (filter_stale lastFed pre Hpre).
  reflexivity.
Qed.

(** *** The function with a valid last feed *)

Lemma status_valid (f : Ferment N) l (now : Date) (lastFed : Z) :
  last_fed_at f = TimeValue lastFed ->
  stress (calculateFermentStatus f l now)
  = add_segment
      (stressUnits (run_loop (sort_events l) (start f lastFed)))
      (ndiv (nsub (time_of now)
               (of_Z (cursor (run_loop (sort_events l) (start f lastFed)))))
         ms_per_hour)
      (currentLocation (run_loop (sort_events l) (start f lastFed)))
  /\ ratio (calculateFermentStatus f l now)
     = ndiv (stress (calculateFermentStatus f l now))
         (base_feed_interval_hours f)
  /\ label (calculateFermentStatus f l now)
     = label_of (ratio (calculateFermentStatus f l now)).
Proof.
  intros Hfed. unfold calculateFermentStatus. rewrite Hfed.
  repeat split; reflexivity.
Qed.

(** With every event at or before the last feed the loop changes nothing. *)
Lemma run_loop_all_stale (f : Ferment N) l (lastFed : Z) :
  (forall e, In e l -> created_at e <= lastFed) ->
  run_loop (sort_events l) (start f lastFed) = start f lastFed.
Proof.
  intros Hstale. rewrite <- (app_nil_r l).
  rewrite (run_loop_prepend_stale lastFed l [] (start f lastFed));
    [reflexivity | simpl; lia | exact Hstale].
Qed.

End ControlFlow.

(** * Facts in exact arithmetic *)

Section ExactFacts.
#[local] Existing Instance Exact.
Local Open Scope Q_scope.

Implicit Types (a : Acc Exact) (e : MoveEvent) (l : list MoveEvent).

Lemma Qltb_lt (p q : Q) : Qltb p q = true <-> p < q.
Proof.
  unfold Qltb. rewrite negb_true_iff.
  destruct (Qle_bool q p) eqn:E.
  - apply Qle_bool_iff in E. split; [discriminate | intros Hlt; lra].
  - split; [intros _ | reflexivity].
    destruct (Qlt_le_dec p q) as [Hlt | Hle]; [exact Hlt|].
    apply Qle_bool_iff in Hle. congruence.
Qed.

Lemma Qltb_ge (p q : Q) : Qltb p q = false <-> q <= p.
Proof.
  unfold Qltb. rewrite negb_false_iff. apply Qle_bool_iff.
Qed.

Lemma locationMultiplier_exact (location : string) :
  locationMultiplier location = XFin (mult_q location).
Proof.
  unfold locationMultiplier, mult_q.
  destruct (String.eqb location "counter"); [reflexivity|].
  destruct (String.eqb location "fridge"); reflexivity.
Qed.

Lemma mult_q_pos (location : string) : 0 < mult_q location.
Proof.
  unfold mult_q.
  destruct (String.eqb location "counter"); [reflexivity|].
  destruct (String.eqb location "fridge"); reflexivity.
Qed.

Lemma hours_exact (from to : Z) :
  ndiv (nsub (of_Z to) (of_Z from)) ms_per_hour = XFin (hours_q from to).
Proof. reflexivity. Qed.

Lemma hours_q_pos (from to : Z) : 0 < hours_q from to <-> (from < to)%Z.
Proof.
  rewrite Zlt_Qlt. hours_norm. split; intros Hlt; lra.
Qed.

Lemma hours_q_mono (from to to' : Z) :
  (to <= to')%Z -> hours_q from to <= hours_q from to'.
Proof.
  rewrite Zle_Qle. hours_norm. intros Hle. lra.
Qed.

Lemma hours_q_split (from mid to : Z) :
  hours_q from mid + hours_q mid to == hours_q from to.
Proof. hours_norm. lra. Qed.

Lemma hours_q_refl (t : Z) : hours_q t t == 0.
Proof. hours_norm. lra. Qed.

Lemma add_segment_exact (s h : Q) (location : string) :
  add_segment (XFin s) (XFin h) location
  = XFin (if Qltb 0 h then s + h * mult_q location else s).
Proof.
  unfold add_segment. rewrite locationMultiplier_exact. simpl.
  change (Qltb (inject_Z 0) h) with (Qltb 0 h).
  destruct (Qltb 0 h); reflexivity.
Qed.

(** The running total is a rational and never decreases. *)
Lemma loop_body_total a e (s : Q) :
  stressUnits a = XFin s ->
  exists s', stressUnits (loop_body a e) = XFin s' /\ s <= s'.
Proof.
  intros Hs. unfold loop_body.
  destruct (created_at e <=? cursor a)%Z eqn:E.
  - exists s. split; [exact Hs | lra].
  - cbn [stressUnits]. rewrite hours_exact, Hs, add_segment_exact.
    pose proof (mult_q_pos (currentLocation a)) as Hm.
    destruct (Qltb 0 (hours_q (cursor a) (created_at e))) eqn:Eh.
    + apply Qltb_lt in Eh. eexists. split; [reflexivity|]. nra.
    + exists s. split; [reflexivity | lra].
Qed.

Lemma run_loop_total l : forall a (s : Q),
  stressUnits a = XFin s ->
  exists s', stressUnits (run_loop l a) = XFin s' /\ s <= s'.
Proof.
  unfold run_loop.
  induction l as [|e l IH]; intros a s Hs; simpl.
  - exists s. split; [exact Hs | lra].
  - destruct (loop_body_total a e s Hs) as (s1 & Hs1 & Hle1).
    destruct (IH _ _ Hs1) as (s2 & Hs2 & Hle2).
    exists s2. split; [exact Hs2 | lra].
Qed.

(** With a valid last feed, the stress is the loop's total plus the final
    segment, and the loop's total is a non-negative rational. *)
Lemma stress_valid (f : Ferment Exact) l (now : Date) (lastFed : Z) :
  last_fed_at f = TimeValue lastFed ->
  exists (s : Q),
    stressUnits (run_loop (sort_events l) (start f lastFed)) = XFin s /\
    0 <= s /\
    stress (calculateFermentStatus f l now)
    = add_segment (XFin s)
        (ndiv (nsub (time_of now)
                 (of_Z (cursor (run_loop (sort_events l) (start f lastFed)))))
           ms_per_hour)
        (currentLocation (run_loop (sort_events l) (start f lastFed))).
Proof.
  intros Hfed.
  destruct (run_loop_total (sort_events l) (start f lastFed) (inject_Z 0) eq_refl)
    as (s & Hs & Hle).
  exists s. split; [exact Hs|]. split; [exact Hle|].
  unfold calculateFermentStatus. rewrite Hfed. cbn [stress]. rewrite Hs.
  reflexivity.
Qed.

(** The final segment at a valid reference time. *)
Lemma final_segment (s : Q) (c n : Z) (location : string) :
  add_segment (XFin s) (ndiv (nsub (time_of (TimeValue n)) (of_Z c)) ms_per_hour)
    location
  = XFin (if Qltb 0 (hours_q c n) then s + hours_q c n * mult_q location else s).
Proof.
  cbn [time_of]. rewrite hours_exact. apply add_segment_exact.
Qed.

(** The final segment at an invalid reference time adds nothing. *)
Lemma final_segment_invalid (s : xnum) (c : Z) (location : string) :
  add_segment s (ndiv (nsub (time_of InvalidDate) (of_Z c)) ms_per_hour) location
  = s.
Proof. reflexivity. Qed.

(** Without a location change the total telescopes. *)
Lemma run_loop_single_location (lastFed n : Z) (location : string) l :
  forall a (s : Q),
  (forall e, In e l -> new_storage_location e = None) ->
  (forall e, In e l -> (created_at e <= n)%Z) ->
  (lastFed <= cursor a <= n)%Z ->
  currentLocation a = location ->
  stressUnits a = XFin s ->
  s == hours_q lastFed (cursor a) * mult_q location ->
  exists s',
    stressUnits (run_loop l a) = XFin s' /\
    s' == hours_q lastFed (cursor (run_loop l a)) * mult_q location /\
    currentLocation (run_loop l a) = location /\
    (lastFed <= cursor (run_loop l a) <= n)%Z.
Proof.
  unfold run_loop.
  induction l as [|e l IH]; intros a s Hnone Hle Hc Hloc Hs Hinv; simpl.
  - exists s. auto.
  - assert (Hnone' : forall x, In x l -> new_storage_location x = None)
      by (intros x Hx; apply Hnone; right; exact Hx).
    assert (Hle' : forall x, In x l -> (created_at x <= n)%Z)
      by (intros x Hx; apply Hle; right; exact Hx).
    pose proof (Hnone e (or_introl eq_refl)) as He.
    pose proof (Hle e (or_introl eq_refl)) as Hen.
    destruct (Z_le_gt_dec (created_at e) (cursor a)) as [Hskip | Hgo].
    + rewrite loop_body_skip by exact Hskip. eapply IH; eauto.
    + eapply (IH (loop_body a e)); try assumption.
      * rewrite loop_body_cursor. lia.
      * unfold loop_body, apply_move.
        destruct (created_at e <=? cursor a)%Z; [exact Hloc|].
        cbn [currentLocation]. rewrite He. exact Hloc.
      * unfold loop_body.
        destruct (created_at e <=? cursor a)%Z eqn:E; [lia|].
        cbn [stressUnits]. rewrite hours_exact, Hs, add_segment_exact, Hloc.
        reflexivity.
      * assert (Hpos : 0 < hours_q (cursor a) (created_at e))
          by (apply hours_q_pos; lia).
        apply Qltb_lt in Hpos. rewrite Hpos.
        rewrite loop_body_cursor.
        replace (Z.max (cursor a) (created_at e)) with (created_at e) by lia.
        rewrite Hinv.
        rewrite <- (hours_q_split lastFed (cursor a) (created_at e)). ring.
Qed.

Lemma label_of_exact (q : Q) :
  label_of (XFin q)
  = if Qltb q (7 # 10) then "happy"
    else if Qltb q 1 then "due_soon" else "needs_feed".
Proof. reflexivity. Qed.

Lemma ratio_exact (s b : Q) :
  ~ b == 0 -> ndiv (XFin s) (XFin b) = XFin (s / b).
Proof.
  intros Hb. simpl. destruct (Qeq_bool b 0) eqn:E; [|reflexivity].
  apply Qeq_bool_iff in E. contradiction.
Qed.

(** The stress is always a non-negative rational. *)
Lemma stress_finite (f : Ferment Exact) l (now : Date) :
  exists (s : Q),
    stress (calculateFermentStatus f l now) = XFin s /\ 0 <= s.
Proof.
  destruct (last_fed_at f) as [|lastFed] eqn:Hfed.
  - unfold calculateFermentStatus. rewrite Hfed.
    exists 0. split; [reflexivity | lra].
  - destruct (stress_valid f l now lastFed Hfed) as (s & _ & Hs & ->).
    destruct now as [|n].
    + rewrite final_segment_invalid. exists s. split; [reflexivity | exact Hs].
    + rewrite final_segment.
      set (a := run_loop (sort_events l) (start f lastFed)).
      pose proof (mult_q_pos (currentLocation a)) as Hm.
      eexists. split; [reflexivity|].
      destruct (Qltb 0 (hours_q (cursor a) n)) eqn:Eh; [|exact Hs].
      apply Qltb_lt in Eh. nra.
Qed.

(** A live event adds the hours since the cursor times the multiplier of
    the current location, whatever the reference time. *)
Lemma loop_body_live_exact a e :
  (exists s : Q, stressUnits a = XFin s) ->
  (cursor a < created_at e)%Z ->
  loop_body a e
  = {| cursor := created_at e;
       currentLocation := apply_move (currentLocation a) e;
       stressUnits :=
         nadd (stressUnits a)
              (nmul (hoursBetween (TimeValue (cursor a))
                                  (TimeValue (created_at e)))
                    (locationMultiplier (currentLocation a))) |}.
Proof.
  intros [s Hs] Hlt. unfold loop_body.
  destruct (created_at e <=? cursor a)%Z eqn:E; [lia|].
  unfold hoursBetween. cbn [time_of].
  rewrite hours_exact, Hs, add_segment_exact, locationMultiplier_exact.
  assert (Hpos : Qltb 0 (hours_q (cursor a) (created_at e)) = true)
    by (apply Qltb_lt, hours_q_pos; exact Hlt).
  rewrite Hpos. reflexivity.
Qed.


End ExactFacts.

(** * Facts on binary64 numbers *)

(** ** Integers below 2^53 convert exactly *)

Lemma digits2_pos_log2 (p : positive) :
  Z.pos (digits2_pos p) = Z.log2 (Z.pos p) + 1.
Proof.
  assert (Hsize : forall q, digits2_pos q = Pos.size q)
    by (induction q; simpl; congruence).
  rewrite Hsize. destruct p; simpl; lia.
Qed.

Lemma digits2_pos_bounds (p : positive) :
  2 ^ (Z.pos (digits2_pos p) - 1) <= Z.pos p < 2 ^ Z.pos (digits2_pos p).
Proof.
  rewrite digits2_pos_log2.
  replace (Z.log2 (Z.pos p) + 1 - 1) with (Z.log2 (Z.pos p)) by lia.
  apply Z.log2_spec. lia.
Qed.

Lemma digits2_pos_le_prec (p : positive) :
  Z.pos p < 2 ^ 53 -> Z.pos (digits2_pos p) <= 53.
Proof.
  intros Hp. destruct (digits2_pos_bounds p) as [Hlo _].
  destruct (Z_le_gt_dec (Z.pos (digits2_pos p)) 53) as [H|H]; [exact H|].
  assert (2 ^ 53 <= 2 ^ (Z.pos (digits2_pos p) - 1))
    by (apply Z.pow_le_mono_r; lia).
  lia.
Qed.

Lemma iter_xO_value (k p : positive) :
  Z.pos (Pos.iter xO p k) = Z.pos p * 2 ^ Z.pos k.
Proof.
  induction k as [|k IH] using Pos.peano_ind.
  - simpl. lia.
  - rewrite Pos.iter_succ, Pos2Z.inj_succ, Z.pow_succ_r by lia.
    rewrite Pos2Z.inj_xO, IH. ring.
Qed.

Lemma iter_xO_digits (k p : positive) :
  digits2_pos (Pos.iter xO p k) = (digits2_pos p + k)%positive.
Proof.
  induction k as [|k IH] using Pos.peano_ind.
  - simpl. lia.
  - rewrite Pos.iter_succ. simpl. rewrite IH. lia.
Qed.

(** Rounding a mantissa that is already canonical returns it. *)
Lemma binary_round_aux_canonical (s : bool) (m : positive) (e : Z) :
  fexp prec emax (Z.pos (digits2_pos m) + e) = e ->
  e <= emax - prec ->
  binary_round_aux prec emax s (Z.pos m) e loc_Exact = S754_finite s m e.
Proof.
  intros Hcan Hmax.
  unfold binary_round_aux, shr_fexp.
  cbn [shr_record_of_loc Zdigits2].
  rewrite Hcan, Z.sub_diag.
  cbn [shr shr_m loc_of_shr_record round_nearest_even Zdigits2 shr_record_of_loc].
  rewrite Hcan, Z.sub_diag. cbn [shr shr_m].
  apply Z.leb_le in Hmax. rewrite Hmax. reflexivity.
Qed.

(** Rounding an integer below 2^53 keeps it. *)
Lemma binary_round_small (s : bool) (p : positive) :
  Z.pos p < 2 ^ 53 ->
  exists m e,
    binary_round prec emax s p 0 = S754_finite s m e /\
    e <= 0 /\ Z.pos m = Z.pos p * 2 ^ (- e).
Proof.
  intros Hp. pose proof (digits2_pos_le_prec p Hp) as Hd.
  pose proof (Pos2Z.is_pos (digits2_pos p)) as Hd0.
  unfold binary_round, shl_align.
  assert (Hfexp : fexp prec emax (Z.pos (digits2_pos p) + 0)
                  = Z.pos (digits2_pos p) - 53)
    by (unfold fexp, emin, prec, emax; lia).
  rewrite Hfexp.
  destruct (Z.pos (digits2_pos p) - 53 - 0) as [|k|k] eqn:Ek; try lia.
  - exists p, 0.
    rewrite binary_round_aux_canonical;
      [ | unfold fexp, emin, prec, emax; lia | unfold prec, emax; lia ].
    split; [reflexivity|]. split; [lia|]. simpl. lia.
  - exists (Pos.iter xO p k), (Z.pos (digits2_pos p) - 53).
    rewrite binary_round_aux_canonical;
      [ | rewrite iter_xO_digits; unfold fexp, emin, prec, emax; lia
        | unfold prec, emax; lia ].
    split; [reflexivity|]. split; [lia|].
    rewrite iter_xO_value. f_equal. f_equal. lia.
Qed.

Lemma sf_holds_float_of_Z (z : Z) :
  - 2 ^ 53 < z < 2 ^ 53 -> sf_holds (Prim2SF (float_of_Z z)) z.
Proof.
  intros Hz. unfold float_of_Z.
  assert (HwB : 2 ^ 53 < Uint63.wB) by (vm_compute; reflexivity).
  destruct z as [|p|p]; cbn [Z.ltb Z.compare].
  - vm_compute. auto.
  - rewrite of_uint63_spec, Uint63.of_Z_spec, Z.mod_small by lia.
    cbn [binary_normalize].
    destruct (binary_round_small false p) as (m & e & -> & He & Hm); [lia|].
    simpl. repeat split; [exact He | rewrite Hm; reflexivity].
  - rewrite opp_spec, of_uint63_spec, Uint63.of_Z_spec.
    cbn [Z.opp]. rewrite Z.mod_small by lia.
    cbn [binary_normalize].
    destruct (binary_round_small false p) as (m & e & -> & He & Hm); [lia|].
    simpl. repeat split; [exact He | rewrite Hm; reflexivity].
Qed.

Lemma shr_1_nonneg mrs : 0 <= shr_m mrs -> 0 <= shr_m (shr_1 mrs).
Proof.
  destruct mrs as [m r s]. simpl.
  destruct m as [|[p|p|]|[p|p|]]; simpl; lia.
Qed.

Lemma iter_shr_1_nonneg p : forall mrs,
  0 <= shr_m mrs -> 0 <= shr_m (iter_pos shr_1 p mrs).
Proof.
  induction p as [p IH|p IH|]; intros mrs Hm; simpl.
  - apply IH, IH, shr_1_nonneg, Hm.
  - apply IH, IH, Hm.
  - apply shr_1_nonneg, Hm.
Qed.

Lemma shr_fexp_nonneg m e l :
  0 <= m -> 0 <= shr_m (fst (shr_fexp prec emax m e l)).
Proof.
  intros Hm. unfold shr_fexp, shr.
  assert (H0 : 0 <= shr_m (shr_record_of_loc m l))
    by (destruct l as [|[]]; exact Hm).
  destruct (fexp prec emax (Zdigits2 m + e) - e); simpl;
    [exact H0 | apply iter_shr_1_nonneg, H0 | exact H0].
Qed.

Lemma round_nearest_even_nonneg m l :
  0 <= m -> 0 <= round_nearest_even m l.
Proof.
  intros Hm. destruct l as [|[]]; simpl; try lia.
  destruct (Z.even m); lia.
Qed.

Lemma binary_round_aux_sign s m e l :
  0 <= m -> sf_signed s (binary_round_aux prec emax s m e l) = true.
Proof.
  intros Hm. unfold binary_round_aux.
  pose proof (shr_fexp_nonneg m e l Hm) as H1.
  destruct (shr_fexp prec emax m e l) as [mrs' e'].
  cbn [fst] in H1.
  pose proof (shr_fexp_nonneg _ e' loc_Exact
                (round_nearest_even_nonneg _ (loc_of_shr_record mrs') H1)) as H2.
  destruct (shr_fexp prec emax _ e' loc_Exact) as [mrs'' e''].
  cbn [fst] in H2.
  destruct (shr_m mrs'') as [|p|p]; [apply eqb_reflx | | lia].
  destruct (e'' <=? emax - prec); apply eqb_reflx.
Qed.

Lemma binary_round_sign s m e :
  sf_signed s (binary_round prec emax s m e) = true.
Proof.
  unfold binary_round.
  destruct (shl_align m e (fexp prec emax (Z.pos (digits2_pos m) + e)))
    as [mz ez].
  apply binary_round_aux_sign. lia.
Qed.

Lemma binary_normalize_sign (m e : Z) :
  (m < 0 -> sf_signed true (binary_normalize prec emax m e false) = true) /\
  (m = 0 -> binary_normalize prec emax m e false = S754_zero false) /\
  (0 < m -> sf_signed false (binary_normalize prec emax m e false) = true).
Proof.
  destruct m as [|p|p]; cbn [binary_normalize]; repeat split; intros H;
    try lia; try reflexivity; apply binary_round_sign.
Qed.

Lemma shl_align_value (m : positive) (e e' : Z) :
  e' <= e -> Z.pos (fst (shl_align m e e')) = Z.pos m * 2 ^ (e - e').
Proof.
  intros Hle. unfold shl_align.
  destruct (e' - e) as [|d|d] eqn:Ed; cbn [fst]; try lia.
  - replace (e - e') with 0 by lia. simpl. lia.
  - rewrite iter_xO_value. f_equal. f_equal. lia.
Qed.

(** The aligned, signed mantissa of a held integer. *)
Lemma aligned_mantissa (s : bool) (m : positive) (e e' z : Z) :
  sf_holds (S754_finite s m e) z -> e' <= e ->
  cond_Zopp s (Z.pos (fst (shl_align m e e'))) = z * 2 ^ (- e').
Proof.
  intros (He & Hm & Hs) Hle.
  rewrite (shl_align_value m e e' Hle), Hm.
  replace (- e') with (- e + (e - e')) by lia.
  rewrite Z.pow_add_r by lia.
  subst s. unfold cond_Zopp. destruct (z <? 0) eqn:E.
  - apply Z.ltb_lt in E. rewrite Z.abs_neq by lia. ring.
  - apply Z.ltb_ge in E. rewrite Z.abs_eq by lia. ring.
Qed.

(** The difference of two held integers has the sign of their difference. *)
Lemma SFsub_sign (x y : spec_float) (zx zy : Z) :
  sf_holds x zx -> sf_holds y zy ->
  (zx < zy -> sf_signed true (SFsub prec emax x y) = true) /\
  (zx = zy -> SFsub prec emax x y = S754_zero false) /\
  (zy < zx -> sf_signed false (SFsub prec emax x y) = true).
Proof.
  intros Hx Hy.
  destruct x as [sx|sx| |sx mx ex]; try contradiction;
    destruct y as [sy|sy| |sy my ey]; try contradiction.
  - destruct Hx as [-> ->], Hy as [-> ->].
    repeat split; intros; try lia; reflexivity.
  - destruct Hx as [-> ->], Hy as (He & Hm & ->).
    assert (zy <> 0) by (intros ->; simpl in Hm; lia).
    cbn [SFsub sf_signed].
    repeat split; intros; lia.
  - destruct Hy as [-> ->], Hx as (He & Hm & ->).
    assert (zx <> 0) by (intros ->; simpl in Hm; lia).
    cbn [SFsub sf_signed].
    repeat split; intros; lia.
  - cbn [SFsub]. cbv zeta.
    rewrite (aligned_mantissa sx mx ex (Z.min ex ey) zx Hx) by lia.
    rewrite (aligned_mantissa sy my ey (Z.min ex ey) zy Hy) by lia.
    destruct Hx as (Hex & _ & _), Hy as (Hey & _ & _).
    set (P := 2 ^ (- Z.min ex ey)).
    assert (HP : 0 < P) by (apply Z.pow_pos_nonneg; lia).
    destruct (binary_normalize_sign (zx * P - zy * P) (Z.min ex ey))
      as (Hneg & Hzero & Hpos).
    repeat split; intros H.
    + apply Hneg. nia.
    + apply Hzero. subst zx. lia.
    + apply Hpos. nia.
Qed.

(** Dividing by a positive finite number keeps the sign. *)
Lemma SFdiv_sign (s : bool) (x : spec_float) (my : positive) (ey : Z) :
  sf_signed s x = true ->
  sf_signed s (SFdiv prec emax x (S754_finite false my ey)) = true.
Proof.
  destruct x as [sx|sx| |sx mx ex]; cbn [sf_signed SFdiv]; intros Hs;
    try discriminate; rewrite ?xorb_false_r; try exact Hs.
  apply eqb_prop in Hs. subst sx.
  unfold SFdiv_core_binary.
  set (m' := match _ - _ - _ with Z.pos _ => _ | 0 => _ | Z.neg _ => _ end).
  assert (Hm' : 0 <= m').
  { subst m'. destruct (_ - _ - _); try lia. apply Z.shiftl_nonneg. lia. }
  pose proof (Z.div_pos m' (Z.pos my) Hm' (Pos2Z.is_pos my)) as Hq.
  unfold Z.div in Hq.
  destruct (Z.div_eucl m' (Z.pos my)) as [q r].
  apply binary_round_aux_sign, Hq.
Qed.

Lemma SFmul_pos x y :
  sf_pos x = true -> sf_pos y = true ->
  sf_signed false (SFmul prec emax x y) = true.
Proof.
  destruct x as [[|]|[|]| |[|] mx ex]; try discriminate;
    destruct y as [[|]|[|]| |[|] my ey]; try discriminate; intros _ _;
    try reflexivity.
  unfold SFmul. apply (binary_round_aux_sign false). lia.
Qed.

Lemma sf_signed_nonneg x : sf_signed false x = true -> sf_nonneg x = true.
Proof. destruct x as [[|]|[|]| |[|] m e]; simpl; auto. Qed.

Lemma SFadd_nonneg x y :
  sf_nonneg x = true -> sf_signed false y = true ->
  sf_nonneg (SFadd prec emax x y) = true.
Proof.
  destruct x as [sx|[|]| |[|] mx ex]; try discriminate;
    destruct y as [[|]|[|]| |[|] my ey]; try discriminate; intros _ _;
    try reflexivity; try (destruct sx; reflexivity).
  unfold SFadd, binary_normalize, cond_Zopp. cbn [Z.add].
  apply sf_signed_nonneg. apply (binary_round_sign false).
Qed.

Lemma ltb_zero_pos (x : float) :
  (0 <? x)%float = true -> sf_pos (Prim2SF x) = true.
Proof.
  rewrite ltb_spec. change (Prim2SF 0%float) with (S754_zero false).
  destruct (Prim2SF x) as [s|[|]| |[|] m e]; simpl; try discriminate; reflexivity.
Qed.

Lemma leb_zero_nonneg (x : float) :
  sf_nonneg (Prim2SF x) = true -> (0 <=? x)%float = true.
Proof.
  rewrite leb_spec. change (Prim2SF 0%float) with (S754_zero false).
  destruct (Prim2SF x) as [s|[|]| |[|] m e]; simpl; try discriminate; reflexivity.
Qed.

(** ** Sums of positive sign *)

Lemma SFadd_signed x y :
  sf_signed false x = true -> sf_signed false y = true ->
  sf_signed false (SFadd prec emax x y) = true.
Proof.
  destruct x as [[|]|[|]| |[|] mx ex]; try discriminate;
    destruct y as [[|]|[|]| |[|] my ey]; try discriminate; intros _ _;
    try reflexivity.
  unfold SFadd, binary_normalize, cond_Zopp. cbn [Z.add].
  apply (binary_round_sign false).
Qed.

(** Adding a zero of positive sign changes nothing. *)
Lemma SFadd_zero_r x :
  sf_signed false x = true -> SFadd prec emax x (S754_zero false) = x.
Proof. destruct x as [[|]|[|]| |[|] mx ex]; try discriminate; reflexivity. Qed.

Lemma SFadd_zero_l x :
  sf_signed false x = true -> SFadd prec emax (S754_zero false) x = x.
Proof. destruct x as [[|]|[|]| |[|] mx ex]; try discriminate; reflexivity. Qed.

(** ** Rounding is monotone

    The operations of [SpecFloat] round to nearest, ties to even, through
    [binary_round_aux].  Its result is described on the reals, here the
    rationals, and shown to be monotone; the order of the results of an
    addition, a multiplication or a division then follows from the order
    of their exact values. *)

Lemma pow2_pos (e : Z) : (0 < pow2 e)%Q.
Proof. apply Qpower_0_lt. reflexivity. Qed.

Lemma pow2_add (a b : Z) : (pow2 (a + b) == pow2 a * pow2 b)%Q.
Proof. apply Qpower_plus. discriminate. Qed.

Lemma pow2_0 : (pow2 0 == 1)%Q.
Proof. reflexivity. Qed.

Lemma pow2_opp (e : Z) : (pow2 e * pow2 (- e) == 1)%Q.
Proof.
  rewrite <- pow2_add. replace (e + - e) with 0 by lia. reflexivity.
Qed.

Lemma pow2_Z (k : Z) : 0 <= k -> (pow2 k == inject_Z (2 ^ k))%Q.
Proof. intros Hk. unfold pow2. rewrite Zpower_Qpower by exact Hk. reflexivity. Qed.

Lemma pow2_le (a b : Z) : a <= b -> (pow2 a <= pow2 b)%Q.
Proof. intros H. apply Qpower_le_compat_l; [exact H | discriminate]. Qed.

Lemma pow2_lt (a b : Z) : a < b -> (pow2 a < pow2 b)%Q.
Proof. intros H. apply Qpower_lt_compat_l; [exact H | reflexivity]. Qed.

Lemma pow2_lt_inv (a b : Z) : (pow2 a < pow2 b)%Q -> a < b.
Proof.
  intros H. destruct (Z_lt_le_dec a b) as [Hlt | Hge]; [exact Hlt|].
  pose proof (pow2_le b a Hge). lra.
Qed.

Lemma pow2_half (e : Z) : (pow2 (- (e + 1)) == pow2 (- e) * (1 # 2))%Q.
Proof.
  replace (- (e + 1)) with (- e + - 1) by lia. rewrite pow2_add.
  reflexivity.
Qed.

(** *** Shifting a located mantissa *)

Lemma inject_Z_xO (p : positive) :
  (inject_Z (Z.pos p~0) == 2 * inject_Z (Z.pos p))%Q.
Proof. rewrite Pos2Z.inj_xO, inject_Z_mult. reflexivity. Qed.

Lemma inject_Z_xI (p : positive) :
  (inject_Z (Z.pos p~1) == 2 * inject_Z (Z.pos p) + 1)%Q.
Proof. rewrite Pos2Z.inj_xI, inject_Z_plus, inject_Z_mult. reflexivity. Qed.

Lemma loc_of_shr_record_of_loc (m : Z) (l : location) :
  loc_of_shr_record (shr_record_of_loc m l) = l
  /\ shr_m (shr_record_of_loc m l) = m.
Proof. destruct l as [|[]]; split; reflexivity. Qed.

(** One step of the shift keeps the real and halves the unit. *)
Lemma located_shr_1 (mrs : shr_record) (e : Z) (x : Q) :
  0 <= shr_m mrs ->
  located (shr_m mrs) e (loc_of_shr_record mrs) x ->
  located (shr_m (shr_1 mrs)) (e + 1) (loc_of_shr_record (shr_1 mrs)) x
  /\ shr_m (shr_1 mrs) = shr_m mrs / 2.
Proof.
  intros Hm Hloc.
  assert (Hy : (x * pow2 (- (e + 1)) == x * pow2 (- e) * (1 # 2))%Q)
    by (rewrite pow2_half; ring).
  unfold located in *. cbv zeta in *.
  revert Hloc. generalize dependent (x * pow2 (- (e + 1)))%Q.
  generalize (x * pow2 (- e))%Q. intros y y' Hy.
  destruct mrs as [m r s]. cbn [shr_m] in *.
  destruct m as [|[p|p|]|p]; try lia;
    destruct r, s; cbn [shr_1 shr_m loc_of_shr_record orb];
    rewrite ?inject_Z_xO, ?inject_Z_xI;
    change (inject_Z 0) with 0%Q; change (inject_Z 1) with 1%Q;
    intros Hloc; (split; [| try reflexivity]);
    try (rewrite Hy; lra); try (split; lra); try lra;
    try (rewrite Pos2Z.inj_xO, Z.mul_comm, Z.div_mul; lia);
    rewrite Pos2Z.inj_xI; apply (Z.div_unique _ _ _ 1); lia.
Qed.

Lemma located_iter_shr_1 (p : positive) : forall (mrs : shr_record) (e : Z) (x : Q),
  0 <= shr_m mrs ->
  located (shr_m mrs) e (loc_of_shr_record mrs) x ->
  located (shr_m (iter_pos shr_1 p mrs)) (e + Z.pos p)
          (loc_of_shr_record (iter_pos shr_1 p mrs)) x
  /\ shr_m (iter_pos shr_1 p mrs) = shr_m mrs / 2 ^ Z.pos p.
Proof.
  assert (Hdiv : forall m a b, 0 < a -> 0 < b -> m / 2 ^ a / 2 ^ b = m / 2 ^ (a + b)).
  { intros m a b Ha Hb. rewrite Z.pow_add_r by lia.
    assert (0 < 2 ^ a) by (apply Z.pow_pos_nonneg; lia).
    assert (0 < 2 ^ b) by (apply Z.pow_pos_nonneg; lia).
    apply Z.div_div; lia. }
  assert (Hnonneg : forall m a, 0 <= m -> 0 <= m / 2 ^ a).
  { intros m a Hm. apply Z_div_nonneg_nonneg; [exact Hm|].
    apply Z.pow_nonneg. lia. }
  induction p as [p IH|p IH|]; intros mrs e x Hm Hloc; cbn [iter_pos].
  - destruct (located_shr_1 mrs e x Hm Hloc) as [H1 E1].
    assert (Hm1 : 0 <= shr_m (shr_1 mrs)) by (rewrite E1; apply Z.div_pos; lia).
    destruct (IH _ _ _ Hm1 H1) as [H2 E2].
    assert (Hm2 : 0 <= shr_m (iter_pos shr_1 p (shr_1 mrs)))
      by (rewrite E2; apply Hnonneg, Hm1).
    destruct (IH _ _ _ Hm2 H2) as [H3 E3].
    split.
    + replace (e + Z.pos p~1) with (e + 1 + Z.pos p + Z.pos p) by lia.
      exact H3.
    + rewrite E3, E2, E1. change (shr_m mrs / 2) with (shr_m mrs / 2 ^ 1).
      rewrite !Hdiv by lia. f_equal. f_equal. lia.
  - destruct (IH _ _ _ Hm Hloc) as [H2 E2].
    assert (Hm2 : 0 <= shr_m (iter_pos shr_1 p mrs))
      by (rewrite E2; apply Hnonneg, Hm).
    destruct (IH _ _ _ Hm2 H2) as [H3 E3].
    split.
    + replace (e + Z.pos p~0) with (e + Z.pos p + Z.pos p) by lia.
      exact H3.
    + rewrite E3, E2, Hdiv by lia. f_equal. f_equal. lia.
  - destruct (located_shr_1 mrs e x Hm Hloc) as [H1 E1].
    split; [exact H1 | exact E1].
Qed.

(** The shift [shr_fexp] makes, when no digit is missing: the real is kept,
    the exponent becomes the one of the format. *)
Lemma located_shr_fexp (m : positive) (e : Z) (l : location) (x : Q) :
  located (Z.pos m) e l x ->
  e <= fexp prec emax (Z.pos (digits2_pos m) + e) ->
  exists mrs,
    shr_fexp prec emax (Z.pos m) e l
    = (mrs, fexp prec emax (Z.pos (digits2_pos m) + e))
    /\ located (shr_m mrs) (fexp prec emax (Z.pos (digits2_pos m) + e))
               (loc_of_shr_record mrs) x
    /\ shr_m mrs
       = Z.pos m / 2 ^ (fexp prec emax (Z.pos (digits2_pos m) + e) - e).
Proof.
  intros Hloc Hn. unfold shr_fexp. cbn [Zdigits2].
  set (E := fexp prec emax (Z.pos (digits2_pos m) + e)) in *.
  destruct (loc_of_shr_record_of_loc (Z.pos m) l) as [Hl Hm].
  unfold shr. destruct (E - e) as [|n|n] eqn:En; try lia.
  - exists (shr_record_of_loc (Z.pos m) l).
    replace E with e by lia.
    rewrite Hl, Hm. repeat split; [exact Hloc|].
    rewrite Z.div_1_r. reflexivity.
  - exists (iter_pos shr_1 n (shr_record_of_loc (Z.pos m) l)).
    destruct (located_iter_shr_1 n (shr_record_of_loc (Z.pos m) l) e x)
      as [H1 E1].
    + rewrite Hm. lia.
    + rewrite Hl, Hm. exact Hloc.
    + replace (e + Z.pos n) with E in * by lia.
      rewrite Hm in E1. repeat split; [exact H1 | exact E1].
Qed.

(** *** What [binary_round_aux] returns *)

Lemma fexp_ge_emin (e : Z) : emin <= fexp prec emax e.
Proof. unfold fexp. lia. Qed.

Lemma round_nearest_even_bounds (m : Z) (l : location) :
  m <= round_nearest_even m l <= m + 1.
Proof. destruct l as [|[]]; simpl; try lia. destruct (Z.even m); lia. Qed.

(** The second shift of [binary_round_aux] packs the rounded mantissa. *)
Lemma pack_spec (M E : Z) :
  0 <= M <= 2 ^ prec -> emin <= E ->
  (let '(mrs, e) := shr_fexp prec emax M E loc_Exact in
   match shr_m mrs with
   | 0 => S754_zero false
   | Z.pos p => if e <=? emax - prec then S754_finite false p e
                else S754_infinity false
   | Z.neg _ => S754_nan
   end) = pack M E.
Proof.
  intros [HM0 HM] HE. unfold shr_fexp, pack.
  destruct M as [|p|p]; try lia.
  - cbn [Zdigits2 shr_record_of_loc].
    assert (Hn : fexp prec emax (0 + E) - E <= 0)
      by (unfold fexp, emin, prec, emax in *; lia).
    unfold shr. destruct (fexp prec emax (0 + E) - E); try lia; reflexivity.
  - cbn [Zdigits2 shr_record_of_loc].
    destruct (Z.pos p <? 2 ^ prec) eqn:Hlt.
    + apply Z.ltb_lt in Hlt.
      pose proof (digits2_pos_le_prec p Hlt) as Hd.
      assert (Hn : fexp prec emax (Z.pos (digits2_pos p) + E) - E <= 0)
        by (unfold fexp, emin, prec, emax in *; lia).
      unfold shr.
      destruct (fexp prec emax (Z.pos (digits2_pos p) + E) - E); try lia;
        reflexivity.
    + apply Z.ltb_ge in Hlt.
      assert (Hp : p = 9007199254740992%positive)
        by (change (2 ^ prec) with 9007199254740992 in *; lia).
      subst p.
      change (Z.pos (digits2_pos 9007199254740992)) with 54.
      assert (Hn : fexp prec emax (54 + E) - E = 1)
        by (unfold fexp, emin, prec, emax in *; lia).
      rewrite Hn. reflexivity.
Qed.

Lemma binary_round_aux_shape (m : positive) (e : Z) (l : location) (x : Q) :
  located (Z.pos m) e l x ->
  e <= fexp prec emax (Z.pos (digits2_pos m) + e) ->
  exists m' l',
    located m' (fexp prec emax (Z.pos (digits2_pos m) + e)) l' x
    /\ 0 <= m' < 2 ^ prec
    /\ (emin < fexp prec emax (Z.pos (digits2_pos m) + e) -> 2 ^ (prec - 1) <= m')
    /\ binary_round_aux prec emax false (Z.pos m) e l
       = pack (round_nearest_even m' l')
              (fexp prec emax (Z.pos (digits2_pos m) + e)).
Proof.
  intros Hloc Hn.
  destruct (located_shr_fexp m e l x Hloc Hn) as (mrs & Hshr & Hloc' & Hm').
  set (E := fexp prec emax (Z.pos (digits2_pos m) + e)) in *.
  pose proof (fexp_ge_emin (Z.pos (digits2_pos m) + e)) as HE. fold E in HE.
  pose proof (digits2_pos_bounds m) as [Hlo Hhi].
  pose proof (Pos2Z.is_pos (digits2_pos m)) as Hd.
  assert (Hpow : 0 < 2 ^ (E - e)) by (apply Z.pow_pos_nonneg; lia).
  assert (Hupper : shr_m mrs < 2 ^ prec).
  { rewrite Hm'. apply Z.div_lt_upper_bound; [exact Hpow|].
    rewrite <- Z.pow_add_r by (unfold prec; lia).
    apply Z.lt_le_trans with (1 := Hhi).
    apply Z.pow_le_mono_r; [lia|].
    unfold E, fexp, emin, prec, emax in *. lia. }
  assert (Hlower : 0 <= shr_m mrs)
    by (rewrite Hm'; apply Z.div_pos; lia).
  exists (shr_m mrs), (loc_of_shr_record mrs).
  split; [exact Hloc'|]. split; [lia|]. split.
  - intros Hnormal. rewrite Hm'.
    apply Z.div_le_lower_bound; [exact Hpow|].
    rewrite <- Z.pow_add_r by (unfold prec; lia).
    apply Z.le_trans with (2 := Hlo).
    apply Z.pow_le_mono_r; [lia|].
    unfold E, fexp, emin, prec, emax in *. lia.
  - unfold binary_round_aux. rewrite Hshr.
    apply pack_spec; [|exact HE].
    pose proof (round_nearest_even_bounds (shr_m mrs) (loc_of_shr_record mrs)).
    lia.
Qed.

(** *** Rounding is monotone *)

Lemma located_bounds (m e : Z) (l : location) (x : Q) :
  located m e l x ->
  (inject_Z m <= x * pow2 (- e) /\ x * pow2 (- e) < inject_Z m + 1)%Q.
Proof.
  unfold located. cbv zeta. generalize (x * pow2 (- e))%Q. intros y.
  destruct l as [|[]]; intros H; lra.
Qed.

Lemma scale_back (x : Q) (e : Z) : (x == x * pow2 (- e) * pow2 e)%Q.
Proof.
  rewrite <- Qmult_assoc, (Qmult_comm (pow2 (- e))), pow2_opp. ring.
Qed.

(** The magnitude of a located real is the one of its mantissa. *)
Lemma located_mag (m : positive) (e : Z) (l : location) (x : Q) :
  located (Z.pos m) e l x ->
  (pow2 (Z.pos (digits2_pos m) - 1 + e) <= x
   /\ x < pow2 (Z.pos (digits2_pos m) + e))%Q.
Proof.
  intros Hloc. apply located_bounds in Hloc. destruct Hloc as [Hlo Hhi].
  pose proof (digits2_pos_bounds m) as [Hdlo Hdhi].
  pose proof (Pos2Z.is_pos (digits2_pos m)) as Hd.
  pose proof (pow2_pos e) as He.
  rewrite (scale_back x e), !pow2_add.
  rewrite (pow2_Z (Z.pos (digits2_pos m) - 1)) by lia.
  rewrite (pow2_Z (Z.pos (digits2_pos m))) by lia.
  rewrite Zle_Qle in Hdlo.
  assert (Hdhi' : (inject_Z (Z.pos m) + 1 <= inject_Z (2 ^ Z.pos (digits2_pos m)))%Q).
  { change 1%Q with (inject_Z 1). rewrite <- inject_Z_plus, <- Zle_Qle. lia. }
  split.
  - apply Qmult_le_compat_r; [|apply Qlt_le_weak, He].
    apply Qle_trans with (1 := Hdlo). exact Hlo.
  - apply Qmult_lt_compat_r; [exact He|].
    apply Qlt_le_trans with (1 := Hhi). exact Hdhi'.
Qed.

Lemma fexp_mono (a b : Z) : a <= b -> fexp prec emax a <= fexp prec emax b.
Proof. unfold fexp. lia. Qed.

Lemma round_nearest_even_mono (m1 m2 E : Z) (l1 l2 : location) (x1 x2 : Q) :
  located m1 E l1 x1 -> located m2 E l2 x2 -> (x1 <= x2)%Q ->
  round_nearest_even m1 l1 <= round_nearest_even m2 l2.
Proof.
  intros H1 H2 Hle.
  assert (Hy : (x1 * pow2 (- E) <= x2 * pow2 (- E))%Q).
  { apply Qmult_le_compat_r; [exact Hle|]. apply Qlt_le_weak, pow2_pos. }
  pose proof (located_bounds _ _ _ _ H1) as [Hlo1 Hhi1].
  pose proof (located_bounds _ _ _ _ H2) as [Hlo2 Hhi2].
  assert (Hm : m1 <= m2).
  { assert (inject_Z m1 < inject_Z (m2 + 1))%Q
      by (rewrite inject_Z_plus; change (inject_Z 1) with 1%Q; lra).
    rewrite <- Zlt_Qlt in H. lia. }
  pose proof (round_nearest_even_bounds m1 l1).
  pose proof (round_nearest_even_bounds m2 l2).
  destruct (Z.eq_dec m1 m2) as [<- | Hne]; [|lia].
  unfold located in H1, H2. cbv zeta in *.
  revert H1 H2 Hy. generalize (x1 * pow2 (- E))%Q (x2 * pow2 (- E))%Q.
  intros y1 y2 H1 H2 Hy.
  destruct l1 as [|[]], l2 as [|[]]; cbn [round_nearest_even];
    destruct (Z.even m1); try lia; exfalso; lra.
Qed.

Lemma SFleb_finite (p1 p2 : positive) (e1 e2 : Z) :
  e1 < e2 \/ (e1 = e2 /\ (p1 <= p2)%positive) ->
  SFleb (S754_finite false p1 e1) (S754_finite false p2 e2) = true.
Proof.
  intros H. unfold SFleb, SFcompare.
  destruct (Z.compare_spec e1 e2) as [Heq | Hlt | Hgt]; try reflexivity;
    try lia.
  destruct H as [H | [_ H]]; [lia|].
  change (Pos.compare_cont Eq p1 p2) with (Pos.compare p1 p2).
  destruct (Pos.compare_spec p1 p2); try reflexivity. lia.
Qed.

Lemma pack_mono_same (E M1 M2 : Z) :
  0 <= M1 -> M1 <= M2 -> M2 <= 2 ^ prec ->
  SFleb (pack M1 E) (pack M2 E) = true.
Proof.
  intros H0 H12 H2. change (2 ^ prec) with 9007199254740992 in *.
  unfold pack. change (2 ^ prec) with 9007199254740992.
  destruct M1 as [|p1|p1]; try lia.
  - destruct M2 as [|p2|p2]; try lia; try reflexivity.
    destruct (Z.pos p2 <? 9007199254740992);
      [destruct (E <=? emax - prec) | destruct (E + 1 <=? emax - prec)];
      reflexivity.
  - destruct M2 as [|p2|p2]; try lia.
    destruct (Z.pos p1 <? 9007199254740992) eqn:L1;
      destruct (Z.pos p2 <? 9007199254740992) eqn:L2;
      rewrite ?Z.ltb_lt, ?Z.ltb_ge in *; try lia.
    + destruct (E <=? emax - prec); [|reflexivity].
      apply SFleb_finite. right. split; [reflexivity | lia].
    + destruct (E <=? emax - prec) eqn:B1;
        destruct (E + 1 <=? emax - prec) eqn:B2;
        rewrite ?Z.leb_le, ?Z.leb_gt in *; try lia; try reflexivity.
      apply SFleb_finite. left. lia.
    + assert (p1 = p2) as -> by lia.
      destruct (E + 1 <=? emax - prec); [|reflexivity].
      apply SFleb_finite. right. split; [reflexivity | lia].
Qed.

Lemma pack_mono_lt (E1 E2 M1 M2 : Z) :
  E1 < E2 ->
  0 <= M1 <= 2 ^ prec -> 2 ^ (prec - 1) <= M2 <= 2 ^ prec ->
  SFleb (pack M1 E1) (pack M2 E2) = true.
Proof.
  intros HE [H0 H1] [H2 H3].
  change (2 ^ prec) with 9007199254740992 in *.
  change (2 ^ (prec - 1)) with 4503599627370496 in *.
  unfold pack. change (2 ^ prec) with 9007199254740992.
  destruct M2 as [|p2|p2]; try lia.
  destruct M1 as [|p1|p1]; try lia.
  - destruct (Z.pos p2 <? 9007199254740992);
      [destruct (E2 <=? emax - prec) | destruct (E2 + 1 <=? emax - prec)];
      reflexivity.
  - destruct (Z.pos p1 <? 9007199254740992) eqn:L1;
      destruct (Z.pos p2 <? 9007199254740992) eqn:L2;
      rewrite ?Z.ltb_lt, ?Z.ltb_ge in *.
    + destruct (E1 <=? emax - prec) eqn:B1;
        destruct (E2 <=? emax - prec) eqn:B2;
        rewrite ?Z.leb_le, ?Z.leb_gt in *; try lia; try reflexivity.
      apply SFleb_finite. left. lia.
    + destruct (E1 <=? emax - prec) eqn:B1;
        destruct (E2 + 1 <=? emax - prec) eqn:B2;
        rewrite ?Z.leb_le, ?Z.leb_gt in *; try lia; try reflexivity.
      apply SFleb_finite. left. lia.
    + assert (p1 = 9007199254740992%positive) as -> by lia.
      change (Pos.div2 9007199254740992) with 4503599627370496%positive.
      destruct (E1 + 1 <=? emax - prec) eqn:B1;
        destruct (E2 <=? emax - prec) eqn:B2;
        rewrite ?Z.leb_le, ?Z.leb_gt in *; try lia; try reflexivity.
      apply SFleb_finite.
      destruct (Z.eq_dec (E1 + 1) E2) as [Heq | Hne]; [right | left; lia].
      split; [exact Heq | lia].
    + assert (p1 = 9007199254740992%positive) as -> by lia.
      change (Pos.div2 9007199254740992) with 4503599627370496%positive.
      destruct (E1 + 1 <=? emax - prec) eqn:B1;
        destruct (E2 + 1 <=? emax - prec) eqn:B2;
        rewrite ?Z.leb_le, ?Z.leb_gt in *; try lia; try reflexivity.
      apply SFleb_finite. left. lia.
Qed.

(** Rounding is monotone: of two reals in order, the results are in
    order. *)
Lemma rounds_mono (x1 x2 : Q) (f1 f2 : spec_float) :
  rounds x1 f1 -> rounds x2 f2 -> (x1 <= x2)%Q -> SFleb f1 f2 = true.
Proof.
  intros (m1 & e1 & l1 & Hloc1 & Hn1 & ->) (m2 & e2 & l2 & Hloc2 & Hn2 & ->) Hle.
  destruct (binary_round_aux_shape m1 e1 l1 x1 Hloc1 Hn1)
    as (m1' & l1' & Hl1 & Hb1 & Hnorm1 & ->).
  destruct (binary_round_aux_shape m2 e2 l2 x2 Hloc2 Hn2)
    as (m2' & l2' & Hl2 & Hb2 & Hnorm2 & ->).
  pose proof (located_mag m1 e1 l1 x1 Hloc1) as [Hlo1 _].
  pose proof (located_mag m2 e2 l2 x2 Hloc2) as [_ Hhi2].
  assert (Hmag : Z.pos (digits2_pos m1) + e1 <= Z.pos (digits2_pos m2) + e2).
  { assert (Hlt : (pow2 (Z.pos (digits2_pos m1) - 1 + e1)
                   < pow2 (Z.pos (digits2_pos m2) + e2))%Q) by lra.
    apply pow2_lt_inv in Hlt. lia. }
  pose proof (fexp_mono _ _ Hmag) as HE.
  pose proof (fexp_ge_emin (Z.pos (digits2_pos m1) + e1)) as HE1.
  set (E1 := fexp prec emax (Z.pos (digits2_pos m1) + e1)) in *.
  set (E2 := fexp prec emax (Z.pos (digits2_pos m2) + e2)) in *.
  pose proof (round_nearest_even_bounds m1' l1') as HM1.
  pose proof (round_nearest_even_bounds m2' l2') as HM2.
  destruct (Z.eq_dec E1 E2) as [Heq | Hne].
  - rewrite <- Heq in *.
    apply pack_mono_same; [lia | | lia].
    apply (round_nearest_even_mono m1' m2' E1 l1' l2' x1 x2); assumption.
  - apply pack_mono_lt; [lia | lia |].
    assert (2 ^ (prec - 1) <= m2') by (apply Hnorm2; lia). lia.
Qed.

(** *** The operations round *)

Lemma located_compat (m e : Z) (l : location) (x x' : Q) :
  (x == x')%Q -> located m e l x -> located m e l x'.
Proof.
  intros Hx. unfold located. cbv zeta.
  destruct l as [|[]]; rewrite Hx; intros H; exact H.
Qed.

Lemma rounds_compat (x x' : Q) (f : spec_float) :
  (x == x')%Q -> rounds x f -> rounds x' f.
Proof.
  intros Hx (m & e & l & Hloc & Hn & Hf).
  exists m, e, l. split; [apply (located_compat _ _ _ x); assumption|].
  split; assumption.
Qed.

Lemma located_exact (m : positive) (e : Z) :
  located (Z.pos m) e loc_Exact (inject_Z (Z.pos m) * pow2 e).
Proof.
  unfold located. cbv zeta.
  rewrite <- Qmult_assoc, pow2_opp. ring.
Qed.

(** A float of the format is the rounding of its own value. *)
Lemma rounds_canonical (m : positive) (e : Z) :
  bounded prec emax m e = true ->
  rounds (inject_Z (Z.pos m) * pow2 e) (S754_finite false m e).
Proof.
  intros Hb. unfold bounded, canonical_mantissa in Hb.
  apply andb_prop in Hb. destruct Hb as [Hc He].
  apply Z.eqb_eq in Hc. apply Z.leb_le in He.
  exists m, e, loc_Exact. split; [apply located_exact|].
  split; [lia|]. symmetry. apply binary_round_aux_canonical; assumption.
Qed.

Lemma pow2_shift (k e : Z) :
  0 <= k -> (inject_Z (2 ^ k) * pow2 (e - k) == pow2 e)%Q.
Proof.
  intros Hk. rewrite <- pow2_Z by exact Hk. rewrite <- pow2_add.
  replace (k + (e - k)) with e by lia. reflexivity.
Qed.

(** Aligning a mantissa to a smaller exponent keeps the value. *)
Lemma aligned_value (m : positive) (e e' : Z) :
  e' <= e ->
  (inject_Z (Z.pos (fst (shl_align m e e'))) * pow2 e'
   == inject_Z (Z.pos m) * pow2 e)%Q.
Proof.
  intros Hle. rewrite (shl_align_value m e e' Hle), inject_Z_mult.
  rewrite <- Qmult_assoc.
  replace e' with (e - (e - e')) at 2 by lia.
  rewrite pow2_shift by lia. reflexivity.
Qed.

(** [binary_round] rounds the value of the mantissa and exponent it is
    given. *)
Lemma rounds_binary_round (m : positive) (e : Z) :
  rounds (inject_Z (Z.pos m) * pow2 e) (binary_round prec emax false m e).
Proof.
  unfold binary_round.
  set (E := fexp prec emax (Z.pos (digits2_pos m) + e)).
  destruct (Z_le_gt_dec e E) as [Hle | Hgt].
  - assert (Hal : shl_align m e E = (m, e)).
    { unfold shl_align. destruct (E - e) eqn:Ed; try lia; reflexivity. }
    rewrite Hal. exists m, e, loc_Exact.
    split; [apply located_exact|]. split; [exact Hle | reflexivity].
  - pose proof (aligned_value m e E ltac:(lia)) as Hval.
    assert (Hdig : Z.pos (digits2_pos (fst (shl_align m e E))) + E
                   = Z.pos (digits2_pos m) + e).
    { unfold shl_align. destruct (E - e) as [|d|d] eqn:Ed; try lia.
      cbn [fst]. unfold shift_pos. rewrite iter_xO_digits. lia. }
    assert (Hsnd : snd (shl_align m e E) = E).
    { unfold shl_align. destruct (E - e) as [|d|d] eqn:Ed; try lia.
      reflexivity. }
    destruct (shl_align m e E) as [mz ez]. cbn [fst snd] in *. subst ez.
    exists mz, E, loc_Exact.
    split; [apply (located_compat _ _ _ _ _ Hval), located_exact|].
    split; [rewrite Hdig; fold E; lia | reflexivity].
Qed.

(** The sum of two positive finite floats is the rounding of the sum of
    their values. *)
Lemma rounds_SFadd (mx my : positive) (ex ey : Z) :
  rounds (SF2Q (S754_finite false mx ex) + SF2Q (S754_finite false my ey))
         (SFadd prec emax (S754_finite false mx ex) (S754_finite false my ey)).
Proof.
  cbn [SFadd SF2Q cond_Zopp]. cbv zeta.
  set (ez := Z.min ex ey).
  pose proof (aligned_value mx ex ez ltac:(lia)) as Hx.
  pose proof (aligned_value my ey ez ltac:(lia)) as Hy.
  change (Z.pos (fst (shl_align mx ex ez)) + Z.pos (fst (shl_align my ey ez)))
    with (Z.pos (fst (shl_align mx ex ez) + fst (shl_align my ey ez))).
  cbn [binary_normalize].
  apply (rounds_compat
           (inject_Z (Z.pos (fst (shl_align mx ex ez) + fst (shl_align my ey ez)))
            * pow2 ez)).
  - rewrite Pos2Z.inj_add, inject_Z_plus, Qmult_plus_distr_l, Hx, Hy.
    reflexivity.
  - apply rounds_binary_round.
Qed.

(** The value of a float that holds an integer. *)
Lemma held_value (s : bool) (m : positive) (e z : Z) :
  sf_holds (S754_finite s m e) z ->
  (inject_Z (Z.pos m) * pow2 e == inject_Z (Z.abs z))%Q.
Proof.
  intros (He & Hm & _). rewrite Hm, inject_Z_mult, <- Qmult_assoc.
  replace e with (0 - - e) at 2 by lia.
  rewrite pow2_shift by lia. rewrite pow2_0. ring.
Qed.

(** The difference of two floats that hold integers, the first the larger,
    is the rounding of the difference of the integers. *)
Lemma rounds_SFsub (x y : spec_float) (zx zy : Z) :
  sf_holds x zx -> sf_holds y zy ->
  SpecFloat.valid_binary prec emax x = true ->
  SpecFloat.valid_binary prec emax y = true ->
  zy < zx ->
  rounds (inject_Z (zx - zy)) (SFsub prec emax x y).
Proof.
  intros Hx Hy Hvx Hvy Hlt.
  destruct x as [sx|sx| |sx mx ex]; try contradiction;
    destruct y as [sy|sy| |sy my ey]; try contradiction.
  - destruct Hx as [_ ->], Hy as [_ ->]. lia.
  - pose proof (held_value _ _ _ _ Hy) as Hval.
    destruct Hx as [_ ->], Hy as (_ & _ & ->).
    assert (E : (zy <? 0) = true) by (apply Z.ltb_lt; lia).
    rewrite E. cbn [SFsub negb].
    apply (rounds_compat (inject_Z (Z.pos my) * pow2 ey)).
    + rewrite Hval. replace (0 - zy) with (Z.abs zy) by lia. reflexivity.
    + apply rounds_canonical, Hvy.
  - pose proof (held_value _ _ _ _ Hx) as Hval.
    destruct Hy as [_ ->], Hx as (_ & _ & ->).
    assert (E : (zx <? 0) = false) by (apply Z.ltb_ge; lia).
    rewrite E in *. cbn [SFsub].
    apply (rounds_compat (inject_Z (Z.pos mx) * pow2 ex)).
    + rewrite Hval. replace (zx - 0) with (Z.abs zx) by lia. reflexivity.
    + apply rounds_canonical, Hvx.
  - cbn [SFsub]. cbv zeta.
    rewrite (aligned_mantissa sx mx ex (Z.min ex ey) zx Hx) by lia.
    rewrite (aligned_mantissa sy my ey (Z.min ex ey) zy Hy) by lia.
    destruct Hx as (Hex & _ & _), Hy as (Hey & _ & _).
    set (ez := Z.min ex ey).
    assert (HP : 0 < 2 ^ (- ez)) by (apply Z.pow_pos_nonneg; lia).
    assert (Hpos : 0 < zx * 2 ^ (- ez) - zy * 2 ^ (- ez)) by nia.
    destruct (zx * 2 ^ (- ez) - zy * 2 ^ (- ez)) as [|p|p] eqn:Ep; try lia.
    cbn [binary_normalize].
    apply (rounds_compat (inject_Z (Z.pos p) * pow2 ez)).
    + rewrite <- Ep.
      replace (zx * 2 ^ (- ez) - zy * 2 ^ (- ez))
        with ((zx - zy) * 2 ^ (- ez)) by ring.
      rewrite inject_Z_mult, <- Qmult_assoc.
      replace ez with (0 - - ez) at 2 by lia.
      rewrite pow2_shift by lia. rewrite pow2_0. ring.
    + apply rounds_binary_round.
Qed.

Lemma bounded_canonical (m : positive) (e : Z) :
  bounded prec emax m e = true ->
  fexp prec emax (Z.pos (digits2_pos m) + e) = e /\ e <= emax - prec.
Proof.
  unfold bounded, canonical_mantissa. intros Hb.
  apply andb_prop in Hb. destruct Hb as [Hc He].
  apply Z.eqb_eq in Hc. apply Z.leb_le in He. split; assumption.
Qed.

Lemma digits2_pos_mul (mx my : positive) :
  Z.pos (digits2_pos mx) + Z.pos (digits2_pos my) - 1
  <= Z.pos (digits2_pos (mx * my)).
Proof.
  pose proof (digits2_pos_bounds mx) as [Hx _].
  pose proof (digits2_pos_bounds my) as [Hy _].
  pose proof (digits2_pos_bounds (mx * my)) as [_ Hxy].
  pose proof (Pos2Z.is_pos (digits2_pos mx)).
  pose proof (Pos2Z.is_pos (digits2_pos my)).
  assert (Hprod : 2 ^ (Z.pos (digits2_pos mx) - 1 + (Z.pos (digits2_pos my) - 1))
                  <= Z.pos (mx * my)).
  { rewrite Z.pow_add_r by lia. rewrite Pos2Z.inj_mul.
    apply Z.mul_le_mono_nonneg; try lia; apply Z.pow_nonneg; lia. }
  assert (Hlt : 2 ^ (Z.pos (digits2_pos mx) - 1 + (Z.pos (digits2_pos my) - 1))
                < 2 ^ Z.pos (digits2_pos (mx * my))) by lia.
  apply Z.pow_lt_mono_r_iff in Hlt; lia.
Qed.

(** The product of two positive floats of the format is the rounding of
    the product of their values. *)
Lemma rounds_SFmul (mx my : positive) (ex ey : Z) :
  bounded prec emax mx ex = true -> bounded prec emax my ey = true ->
  rounds (SF2Q (S754_finite false mx ex) * SF2Q (S754_finite false my ey))
         (SFmul prec emax (S754_finite false mx ex) (S754_finite false my ey)).
Proof.
  intros Hbx Hby.
  destruct (bounded_canonical _ _ Hbx) as [Hcx _].
  destruct (bounded_canonical _ _ Hby) as [Hcy _].
  cbn [SFmul SF2Q xorb].
  exists (mx * my)%positive, (ex + ey), loc_Exact.
  split; [|split; [|reflexivity]].
  - apply (located_compat _ _ _ (inject_Z (Z.pos (mx * my)) * pow2 (ex + ey))).
    + rewrite Pos2Z.inj_mul, inject_Z_mult, pow2_add. ring.
    + apply located_exact.
  - pose proof (digits2_pos_mul mx my).
    pose proof (Pos2Z.is_pos (digits2_pos mx)).
    pose proof (Pos2Z.is_pos (digits2_pos my)).
    unfold fexp, emin, prec, emax in *. lia.
Qed.

(** The place of a remainder against the half of the divisor. *)
Lemma remainder_place (r m : Z) :
  0 < m ->
  (2 * r < m -> (inject_Z r / inject_Z m < 1 # 2)%Q)
  /\ (2 * r = m -> (inject_Z r / inject_Z m == 1 # 2)%Q)
  /\ (m < 2 * r -> ((1 # 2) < inject_Z r / inject_Z m)%Q)
  /\ (r < m -> (inject_Z r / inject_Z m < 1)%Q)
  /\ (0 < r -> (0 < inject_Z r / inject_Z m)%Q)
  /\ (r = 0 -> (inject_Z r / inject_Z m == 0)%Q).
Proof.
  intros Hm.
  assert (HmQ : (0 < inject_Z m)%Q)
    by (change 0%Q with (inject_Z 0); rewrite <- Zlt_Qlt; exact Hm).
  repeat split; intros H.
  - apply Qlt_shift_div_r; [exact HmQ|].
    rewrite Zlt_Qlt, inject_Z_mult in H. change (inject_Z 2) with 2%Q in H. lra.
  - assert (HQ : (inject_Z m == 2 * inject_Z r)%Q)
      by (rewrite <- H, inject_Z_mult; reflexivity).
    rewrite HQ. field.
    intros Hz. rewrite HQ in HmQ. lra.
  - apply Qlt_shift_div_l; [exact HmQ|].
    rewrite Zlt_Qlt, inject_Z_mult in H. change (inject_Z 2) with 2%Q in H. lra.
  - apply Qlt_shift_div_r; [exact HmQ|]. rewrite Zlt_Qlt in H. lra.
  - apply Qlt_shift_div_l; [exact HmQ|].
    rewrite Zlt_Qlt in H. change (inject_Z 0) with 0%Q in H. lra.
  - subst r. change (inject_Z 0) with 0%Q. field. lra.
Qed.

(** The location [new_location] gives to a remainder is its place. *)
Lemma located_new_location (q r m : Z) (e : Z) (x : Q) :
  0 < m -> 0 <= r < m ->
  (x * pow2 (- e) == inject_Z q + inject_Z r / inject_Z m)%Q ->
  located q e (new_location m r) x.
Proof.
  intros Hm Hr Hx.
  destruct (remainder_place r m Hm) as (Hlt & Heq & Hgt & Hone & Hpos & Hzero).
  unfold located. cbv zeta.
  revert Hx Hlt Heq Hgt Hone Hpos Hzero.
  generalize (x * pow2 (- e))%Q (inject_Z r / inject_Z m)%Q (inject_Z q).
  intros y t qq Hx Hlt Heq Hgt Hone Hpos Hzero.
  unfold new_location.
  destruct (Z.even m) eqn:Ev;
    unfold new_location_even, new_location_odd;
    destruct (Z.eqb_spec r 0) as [Hr0 | Hr0];
    try (specialize (Hzero Hr0); lra).
  - assert (Hrpos : 0 < r) by lia.
    specialize (Hpos Hrpos). specialize (Hone (proj2 Hr)).
    destruct (Z.compare_spec (2 * r) m) as [E | E | E].
    + specialize (Heq E). lra.
    + specialize (Hlt E). split; lra.
    + specialize (Hgt E). split; lra.
  - assert (Hrpos : 0 < r) by lia.
    specialize (Hpos Hrpos). specialize (Hone (proj2 Hr)).
    assert (Hodd : 2 * r <> m).
    { intros E. rewrite <- E, Z.even_mul in Ev. discriminate Ev. }
    destruct (Z.compare_spec (2 * r + 1) m) as [E | E | E].
    + assert (Hl : 2 * r < m) by lia. specialize (Hlt Hl). split; lra.
    + assert (Hl : 2 * r < m) by lia. specialize (Hlt Hl). split; lra.
    + assert (Hg : m < 2 * r) by lia. specialize (Hgt Hg). split; lra.
Qed.

(** The quotient of two positive floats of the format, when it is not in
    the subnormal range, is the rounding of the quotient of their values. *)
Lemma rounds_SFdiv (mx my : positive) (ex ey : Z) :
  bounded prec emax mx ex = true -> bounded prec emax my ey = true ->
  emin <= Z.pos (digits2_pos mx) + ex - (Z.pos (digits2_pos my) + ey) - prec ->
  rounds (SF2Q (S754_finite false mx ex) / SF2Q (S754_finite false my ey))
         (SFdiv prec emax (S754_finite false mx ex) (S754_finite false my ey)).
Proof.
  intros Hbx Hby Hnormal.
  destruct (bounded_canonical _ _ Hbx) as [Hcx _].
  destruct (bounded_canonical _ _ Hby) as [Hcy _].
  pose proof (Pos2Z.is_pos (digits2_pos mx)) as Hdx.
  pose proof (Pos2Z.is_pos (digits2_pos my)) as Hdy.
  pose proof (digits2_pos_bounds mx) as [Hxlo Hxhi].
  pose proof (digits2_pos_bounds my) as [Hylo Hyhi].
  set (dx := Z.pos (digits2_pos mx)) in *.
  set (dy := Z.pos (digits2_pos my)) in *.
  assert (Hdxp : dx <= prec) by (unfold fexp, emin, prec, emax in *; lia).
  set (e0 := dx + ex - (dy + ey) - prec).
  set (s := prec - dx + dy).
  cbn [SFdiv xorb SF2Q]. unfold SFdiv_core_binary. cbn [Zdigits2].
  fold dx dy.
  assert (He' : Z.min (fexp prec emax (dx + ex - (dy + ey))) (ex - ey) = e0)
    by (unfold e0, fexp, emin, prec, emax in *; lia).
  rewrite He'.
  assert (Hs : ex - ey - e0 = s) by (unfold e0, s; lia).
  rewrite Hs.
  assert (Hspos : 0 < s) by (unfold s; lia).
  destruct s as [|sp|sp] eqn:Es; try lia. rewrite <- Es in *.
  rewrite Z.shiftl_mul_pow2 by lia.
  pose proof (Z_div_mod (Z.pos mx * 2 ^ s) (Z.pos my) ltac:(lia)) as Hdiv.
  destruct (Z.div_eucl (Z.pos mx * 2 ^ s) (Z.pos my)) as [q r].
  destruct Hdiv as [Hqr Hr].
  (* the quotient has at least [prec] digits *)
  assert (Hlow : 2 ^ (prec - 1 + dy) <= Z.pos mx * 2 ^ s).
  { replace (prec - 1 + dy) with (dx - 1 + s) by (unfold s; lia).
    rewrite Z.pow_add_r by lia.
    apply Z.mul_le_mono_nonneg_r; [apply Z.pow_nonneg; lia | exact Hxlo]. }
  assert (Hq : 2 ^ (prec - 1) <= q).
  { destruct (Z_le_gt_dec (2 ^ (prec - 1)) q) as [H | H]; [exact H|].
    exfalso.
    assert (Hup : Z.pos my * (q + 1) <= Z.pos my * 2 ^ (prec - 1))
      by (apply Z.mul_le_mono_nonneg_l; lia).
    assert (Hup2 : Z.pos my * 2 ^ (prec - 1) < 2 ^ dy * 2 ^ (prec - 1)).
    { apply Z.mul_lt_mono_pos_r; [apply Z.pow_pos_nonneg; unfold prec; lia|].
      exact Hyhi. }
    rewrite <- Z.pow_add_r in Hup2 by (unfold prec; lia).
    replace (dy + (prec - 1)) with (prec - 1 + dy) in Hup2 by lia.
    lia. }
  assert (Hqpos : 0 < q).
  { assert (0 < 2 ^ (prec - 1)) by (apply Z.pow_pos_nonneg; unfold prec; lia).
    lia. }
  destruct q as [|qp|qp]; try lia.
  exists qp, e0, (new_location (Z.pos my) r).
  split; [|split; [|reflexivity]].
  - apply located_new_location; [lia | exact Hr |].
    assert (HmQ : (inject_Z (Z.pos mx) * inject_Z (2 ^ s)
                   == inject_Z (Z.pos my) * inject_Z (Z.pos qp) + inject_Z r)%Q).
    { rewrite <- !inject_Z_mult, <- inject_Z_plus, <- Hqr. reflexivity. }
    assert (Hmy : ~ (inject_Z (Z.pos my) == 0)%Q).
    { intros H. change 0%Q with (inject_Z 0) in H.
      apply eq_sym, inject_Z_injective in H. discriminate H. }
    pose proof (pow2_pos ey) as Hey.
    pose proof (pow2_opp e0) as He0.
    assert (Hex : (pow2 ex == inject_Z (2 ^ s) * pow2 ey * pow2 e0)%Q).
    { rewrite <- pow2_Z by lia. rewrite <- !pow2_add.
      replace (s + ey + e0) with ex by (unfold s, e0; lia). reflexivity. }
    rewrite Hex.
    transitivity (inject_Z (Z.pos mx) * inject_Z (2 ^ s) / inject_Z (Z.pos my)
                  * (pow2 e0 * pow2 (- e0)))%Q.
    + field. split; [exact Hmy | lra].
    + rewrite He0, HmQ. field. exact Hmy.
  - pose proof (digits2_pos_bounds qp) as [_ Hqhi].
    assert (Hlt : 2 ^ (prec - 1) < 2 ^ Z.pos (digits2_pos qp)) by lia.
    apply Z.pow_lt_mono_r_iff in Hlt; try lia.
    unfold fexp, emin, prec, emax in *. lia.
Qed.

(** *** The order of the floats and the order of their values *)

Lemma SF2Q_pos (m : positive) (e : Z) : (0 < SF2Q (S754_finite false m e))%Q.
Proof.
  cbn [SF2Q]. apply Qmult_lt_0_compat; [|apply pow2_pos].
  change 0%Q with (inject_Z 0). rewrite <- Zlt_Qlt. lia.
Qed.

Lemma SFleb_antisym_finite (m1 m2 : positive) (e1 e2 : Z) :
  SFleb (S754_finite false m1 e1) (S754_finite false m2 e2) = true ->
  SFleb (S754_finite false m2 e2) (S754_finite false m1 e1) = true ->
  m1 = m2 /\ e1 = e2.
Proof.
  unfold SFleb, SFcompare. rewrite (Z.compare_antisym e1 e2).
  destruct (Z.compare_spec e1 e2) as [-> | H | H]; cbn [CompOpp];
    try discriminate.
  change (Pos.compare_cont Eq m1 m2) with (Pos.compare m1 m2).
  change (Pos.compare_cont Eq m2 m1) with (Pos.compare m2 m1).
  rewrite (Pos.compare_antisym m1 m2).
  destruct (Pos.compare_spec m1 m2) as [-> | H | H]; cbn [CompOpp];
    try discriminate.
  intros _ _. split; reflexivity.
Qed.

(** Floats of the format in order have their values in order. *)
Lemma SFleb_values (m1 m2 : positive) (e1 e2 : Z) :
  bounded prec emax m1 e1 = true -> bounded prec emax m2 e2 = true ->
  SFleb (S754_finite false m1 e1) (S754_finite false m2 e2) = true ->
  (SF2Q (S754_finite false m1 e1) <= SF2Q (S754_finite false m2 e2))%Q.
Proof.
  intros Hb1 Hb2 Hle.
  destruct (Qlt_le_dec (SF2Q (S754_finite false m2 e2))
                       (SF2Q (S754_finite false m1 e1))) as [Hlt | Hok];
    [|exact Hok].
  exfalso.
  pose proof (rounds_mono _ _ _ _ (rounds_canonical m2 e2 Hb2)
                (rounds_canonical m1 e1 Hb1) (Qlt_le_weak _ _ Hlt)) as Hge.
  destruct (SFleb_antisym_finite _ _ _ _ Hle Hge) as [-> ->].
  lra.
Qed.

Lemma SFleb_zero_l (x : spec_float) :
  sf_signed false x = true -> SFleb (S754_zero false) x = true.
Proof. destruct x as [[|]|[|]| |[|] m e]; try discriminate; reflexivity. Qed.

Lemma SFleb_inf_r (x : spec_float) :
  sf_signed false x = true -> SFleb x (S754_infinity false) = true.
Proof. destruct x as [[|]|[|]| |[|] m e]; try discriminate; reflexivity. Qed.

Lemma SFleb_refl (x : spec_float) :
  sf_signed false x = true -> SFleb x x = true.
Proof.
  destruct x as [[|]|[|]| |[|] m e]; try discriminate; try reflexivity.
  intros _. apply SFleb_finite. right. split; [reflexivity | lia].
Qed.

(** *** The operations are monotone *)

Lemma SFmul_signed (x : spec_float) (m : positive) (e : Z) :
  sf_signed false x = true ->
  sf_signed false (SFmul prec emax x (S754_finite false m e)) = true.
Proof.
  destruct x as [[|]|[|]| |[|] mx ex]; try discriminate; intros _;
    try reflexivity.
  unfold SFmul. apply (binary_round_aux_sign false). lia.
Qed.

(** Multiplying by a positive float of the format keeps the order. *)
Lemma SFmul_mono (a b : spec_float) (m : positive) (e : Z) :
  sf_signed false a = true -> sf_signed false b = true ->
  SpecFloat.valid_binary prec emax a = true ->
  SpecFloat.valid_binary prec emax b = true ->
  bounded prec emax m e = true ->
  SFleb a b = true ->
  SFleb (SFmul prec emax a (S754_finite false m e))
        (SFmul prec emax b (S754_finite false m e)) = true.
Proof.
  intros Ha Hb Hva Hvb Hm Hle.
  pose proof (SFmul_signed a m e Ha) as Hsa.
  pose proof (SFmul_signed b m e Hb) as Hsb.
  destruct a as [[|]|[|]| |[|] ma ea]; try discriminate Ha.
  - apply SFleb_zero_l, Hsb.
  - destruct b as [[|]|[|]| |[|] mb eb]; try discriminate Hb;
      try discriminate Hle.
    reflexivity.
  - destruct b as [[|]|[|]| |[|] mb eb]; try discriminate Hb;
      try discriminate Hle.
    + apply SFleb_inf_r, Hsa.
    + cbn [SpecFloat.valid_binary] in Hva, Hvb.
      apply (rounds_mono _ _ _ _ (rounds_SFmul ma m ea e Hva Hm)
               (rounds_SFmul mb m eb e Hvb Hm)).
      pose proof (SFleb_values _ _ _ _ Hva Hvb Hle).
      pose proof (SF2Q_pos m e).
      apply Qmult_le_compat_r; lra.
Qed.

(** Dividing by a positive float of the format keeps the order, outside
    the subnormal range. *)
Lemma SFdiv_mono (ma mb m : positive) (ea eb e : Z) :
  bounded prec emax ma ea = true -> bounded prec emax mb eb = true ->
  bounded prec emax m e = true ->
  emin <= Z.pos (digits2_pos ma) + ea - (Z.pos (digits2_pos m) + e) - prec ->
  emin <= Z.pos (digits2_pos mb) + eb - (Z.pos (digits2_pos m) + e) - prec ->
  SFleb (S754_finite false ma ea) (S754_finite false mb eb) = true ->
  SFleb (SFdiv prec emax (S754_finite false ma ea) (S754_finite false m e))
        (SFdiv prec emax (S754_finite false mb eb) (S754_finite false m e))
  = true.
Proof.
  intros Hva Hvb Hm Hna Hnb Hle.
  apply (rounds_mono _ _ _ _ (rounds_SFdiv ma m ea e Hva Hm Hna)
           (rounds_SFdiv mb m eb e Hvb Hm Hnb)).
  pose proof (SFleb_values _ _ _ _ Hva Hvb Hle).
  pose proof (SF2Q_pos m e) as Hpos.
  unfold Qdiv. apply Qmult_le_compat_r; [assumption|].
  apply Qlt_le_weak, Qinv_lt_0_compat, Hpos.
Qed.

(** Adding to a total of positive sign keeps the order. *)
Lemma SFadd_mono (s p1 p2 : spec_float) :
  sf_signed false s = true ->
  sf_signed false p1 = true -> sf_signed false p2 = true ->
  SpecFloat.valid_binary prec emax s = true ->
  SpecFloat.valid_binary prec emax p1 = true ->
  SpecFloat.valid_binary prec emax p2 = true ->
  SFleb p1 p2 = true ->
  SFleb (SFadd prec emax s p1) (SFadd prec emax s p2) = true.
Proof.
  intros Hs H1 H2 Hvs Hv1 Hv2 Hle.
  pose proof (SFadd_signed s p1 Hs H1) as Hs1.
  pose proof (SFadd_signed s p2 Hs H2) as Hs2.
  destruct s as [[|]|[|]| |[|] ms es]; try discriminate Hs.
  - rewrite !SFadd_zero_l by assumption. exact Hle.
  - destruct p1 as [[|]|[|]| |[|] m1 e1]; try discriminate H1;
      destruct p2 as [[|]|[|]| |[|] m2 e2]; try discriminate H2;
      reflexivity.
  - cbn [SpecFloat.valid_binary] in Hvs.
    destruct p1 as [[|]|[|]| |[|] m1 e1]; try discriminate H1;
      destruct p2 as [[|]|[|]| |[|] m2 e2]; try discriminate H2;
      try discriminate Hle;
      try (apply SFleb_inf_r; exact Hs1);
      try (apply SFleb_refl; reflexivity).
    + (* nothing added against something added *)
      change (SFadd prec emax (S754_finite false ms es) (S754_zero false))
        with (S754_finite false ms es).
      apply (rounds_mono _ _ _ _ (rounds_canonical ms es Hvs)
               (rounds_SFadd ms m2 es e2)).
      pose proof (SF2Q_pos m2 e2). cbn [SF2Q] in *. lra.
    + cbn [SpecFloat.valid_binary] in Hv1, Hv2.
      apply (rounds_mono _ _ _ _ (rounds_SFadd ms m1 es e1)
               (rounds_SFadd ms m2 es e2)).
      pose proof (SFleb_values _ _ _ _ Hv1 Hv2 Hle). lra.
Qed.

Section Binary64Facts.
#[local] Existing Instance Binary64.

Implicit Types (a : Acc Binary64) (e : MoveEvent) (l : list MoveEvent).

Lemma locationMultiplier_pos (location : string) :
  sf_pos (Prim2SF (locationMultiplier location)) = true.
Proof.
  unfold locationMultiplier.
  destruct (String.eqb location "counter"); [vm_compute; reflexivity|].
  destruct (String.eqb location "fridge"); vm_compute; reflexivity.
Qed.

Lemma add_segment_nonneg (s hours : float) (location : string) :
  sf_nonneg (Prim2SF s) = true ->
  sf_nonneg (Prim2SF (add_segment s hours location)) = true.
Proof.
  intros Hs. unfold add_segment.
  change (of_Z 0) with 0%float. cbn [nlt nadd nmul Binary64].
  destruct (0 <? hours)%float eqn:E; [|exact Hs].
  rewrite add_spec, mul_spec.
  apply SFadd_nonneg; [exact Hs|].
  apply SFmul_pos; [apply ltb_zero_pos, E | apply locationMultiplier_pos].
Qed.

Lemma loop_body_nonneg a e :
  sf_nonneg (Prim2SF (stressUnits a)) = true ->
  sf_nonneg (Prim2SF (stressUnits (loop_body a e))) = true.
Proof.
  intros Ha. unfold loop_body.
  destruct (created_at e <=? cursor a); [exact Ha|].
  cbn [stressUnits]. apply add_segment_nonneg, Ha.
Qed.

Lemma run_loop_nonneg l : forall a,
  sf_nonneg (Prim2SF (stressUnits a)) = true ->
  sf_nonneg (Prim2SF (stressUnits (run_loop l a))) = true.
Proof.
  unfold run_loop.
  induction l as [|e l IH]; intros a Ha; simpl; [exact Ha|].
  apply IH, loop_body_nonneg, Ha.
Qed.

Lemma stress_nonneg_binary64 (f : Ferment Binary64) l (now : Date) :
  sf_nonneg (Prim2SF (stress (calculateFermentStatus f l now))) = true.
Proof.
  unfold calculateFermentStatus.
  destruct (last_fed_at f) as [|lastFed]; [vm_compute; reflexivity|].
  cbn [stress]. apply add_segment_nonneg, run_loop_nonneg.
  vm_compute. reflexivity.
Qed.

Lemma SFeqb_refl_finite (x : spec_float) :
  SFeqb x x = match x with S754_nan => false | _ => true end.
Proof.
  destruct x as [s|[|]| |[|] m e]; try reflexivity;
    unfold SFeqb, SFcompare; rewrite Z.compare_refl, Pos.compare_cont_refl;
    reflexivity.
Qed.

Lemma is_finite_spec (x : float) :
  is_finite x
  = match Prim2SF x with
    | S754_nan | S754_infinity _ => false
    | _ => true
    end.
Proof.
  unfold is_finite, is_nan, is_infinity.
  rewrite !eqb_spec, abs_spec, SFeqb_refl_finite.
  change (Prim2SF infinity) with (S754_infinity false).
  destruct (Prim2SF x) as [s|[|]| |[|] m e]; reflexivity.
Qed.

(** Dividing a non-negative number by a zero gives an infinity or NaN. *)
Lemma div_by_zero_not_finite (x y : float) :
  sf_nonneg (Prim2SF x) = true ->
  (y =? 0)%float = true ->
  is_finite (x / y) = false.
Proof.
  intros Hx Hy. rewrite is_finite_spec, div_spec.
  rewrite eqb_spec in Hy. change (Prim2SF 0%float) with (S754_zero false) in Hy.
  destruct (Prim2SF y) as [sy|[|]| |[|] my ey]; try discriminate Hy.
  destruct (Prim2SF x) as [sx|[|]| |[|] mx ex]; try discriminate Hx;
    reflexivity.
Qed.

Lemma SFcompare_antisym (x y : spec_float) :
  SFcompare y x = option_map CompOpp (SFcompare x y).
Proof.
  destruct x as [sx|sx| |sx mx ex]; destruct y as [sy|sy| |sy my ey];
    try reflexivity;
    try (destruct sx; reflexivity); try (destruct sy; reflexivity);
    try (destruct sx, sy; reflexivity).
  unfold SFcompare, option_map.
  rewrite (Z.compare_antisym ex ey).
  destruct sx, sy; try reflexivity;
    destruct (ex ?= ey); simpl; try reflexivity;
    rewrite ?Pos.compare_cont_antisym, ?CompOpp_involutive; reflexivity.
Qed.

(** [a <= r] excludes [r < a]. *)
Lemma leb_not_ltb (a r : float) :
  (a <=? r)%float = true -> (r <? a)%float = false.
Proof.
  rewrite leb_spec, ltb_spec. unfold SFleb, SFltb.
  rewrite (SFcompare_antisym (Prim2SF a) (Prim2SF r)).
  destruct (SFcompare (Prim2SF a) (Prim2SF r)) as [[| |]|]; simpl;
    try discriminate; reflexivity.
Qed.

(** [1 <= r] excludes [r < 0.7]. *)
Lemma leb_one_not_ltb_0_7 (r : float) :
  (1 <=? r)%float = true -> (r <? 0x1.6666666666666p-1)%float = false.
Proof.
  rewrite leb_spec, ltb_spec.
  change (Prim2SF 1%float) with (S754_finite false 4503599627370496 (-52)).
  change (Prim2SF 0x1.6666666666666p-1%float)
    with (S754_finite false 6305039478318694 (-53)).
  destruct (Prim2SF r) as [s|[|]| |[|] m e]; try discriminate;
    try reflexivity.
  unfold SFleb, SFltb, SFcompare.
  destruct (Z.compare_spec (-52) e) as [<- | Hlt | Hgt]; try discriminate.
  - intros _. reflexivity.
  - intros _. assert (E : (e ?= -53) = Gt) by (apply Z.compare_gt_iff; lia).
    rewrite E. reflexivity.
Qed.

Lemma dec_0_7_binary64 : dec_0_7 (N := Binary64) = 0x1.6666666666666p-1%float.
Proof. vm_compute. reflexivity. Qed.

(** ** The hours between two time values *)

Lemma valid_time_small (ms : Z) : valid_time ms -> - 2 ^ 53 < ms < 2 ^ 53.
Proof.
  unfold valid_time. change (2 ^ 53) with 9007199254740992. lia.
Qed.

(** [(t - c) / 36e5] has the sign of [t - c]. *)
Lemma hours_sign (c t : Z) :
  valid_time c -> valid_time t ->
  (t < c ->
   sf_signed true
     (Prim2SF (ndiv (nsub (of_Z t) (of_Z c)) ms_per_hour)) = true) /\
  (t = c ->
   Prim2SF (ndiv (nsub (of_Z t) (of_Z c)) ms_per_hour) = S754_zero false) /\
  (c < t ->
   sf_signed false
     (Prim2SF (ndiv (nsub (of_Z t) (of_Z c)) ms_per_hour)) = true).
Proof.
  intros Hc Ht. unfold ms_per_hour. cbn [ndiv nsub of_Z Binary64].
  rewrite div_spec, sub_spec.
  assert (E : Prim2SF (float_of_Z 3600000)
              = S754_finite false 7730941132800000 (-31))
    by (vm_compute; reflexivity).
  rewrite E.
  destruct (SFsub_sign _ _ t c
              (sf_holds_float_of_Z t (valid_time_small t Ht))
              (sf_holds_float_of_Z c (valid_time_small c Hc)))
    as (Hneg & Hzero & Hpos).
  repeat split; intros H.
  - apply SFdiv_sign, Hneg, H.
  - unfold SF64div, SF64sub. rewrite (Hzero H). reflexivity.
  - apply SFdiv_sign, Hpos, H.
Qed.

Lemma sf_signed_true_not_pos (x : float) :
  sf_signed true (Prim2SF x) = true -> (0 <? x)%float = false.
Proof.
  rewrite ltb_spec. change (Prim2SF 0%float) with (S754_zero false).
  destruct (Prim2SF x) as [[|]|[|]| |[|] m e]; simpl; try discriminate;
    reflexivity.
Qed.

(** A reference time at or before the cursor gives no positive hours. *)
Lemma hours_not_positive (c t : Z) :
  valid_time c -> valid_time t -> t <= c ->
  nlt (of_Z 0) (ndiv (nsub (of_Z t) (of_Z c)) ms_per_hour) = false.
Proof.
  intros Hc Ht Hle.
  destruct (hours_sign c t Hc Ht) as (Hneg & Hzero & _).
  change (nlt (of_Z 0)) with (PrimFloat.ltb 0%float).
  destruct (Z_lt_le_dec t c) as [Hlt | Hge].
  - apply sf_signed_true_not_pos, Hneg, Hlt.
  - rewrite ltb_spec, Hzero by lia. reflexivity.
Qed.

(** A reference time at or after the cursor gives hours that are not
    negative. *)
Lemma hours_not_negative (c t : Z) :
  valid_time c -> valid_time t -> c <= t ->
  sf_signed false (Prim2SF (ndiv (nsub (of_Z t) (of_Z c)) ms_per_hour)) = true.
Proof.
  intros Hc Ht Hle.
  destruct (hours_sign c t Hc Ht) as (_ & Hzero & Hpos).
  destruct (Z_lt_le_dec c t) as [Hlt | Hge].
  - apply Hpos, Hlt.
  - rewrite Hzero by lia. reflexivity.
Qed.

Lemma locationMultiplier_finite (location : string) :
  exists (m : positive) (k : Z),
    Prim2SF (locationMultiplier location) = S754_finite false m k.
Proof.
  unfold locationMultiplier.
  destruct (String.eqb location "counter");
    [|destruct (String.eqb location "fridge")];
    eexists; eexists; vm_compute; reflexivity.
Qed.

(** From a zero total, one segment of non-negative hours gives exactly
    hours times multiplier. *)
Lemma add_segment_from_zero (hours : float) (location : string) :
  sf_signed false (Prim2SF hours) = true ->
  strict_eq (add_segment (of_Z 0) hours location)
            (nmul hours (locationMultiplier location)) = true.
Proof.
  intros Hh. unfold add_segment.
  destruct (locationMultiplier_finite location) as (m & e & Hm).
  change (of_Z 0) with 0%float. cbn [nlt nadd nmul strict_eq Binary64].
  destruct (0 <? hours)%float eqn:E.
  - pose proof (SFmul_pos _ _ (ltb_zero_pos hours E)
                  (locationMultiplier_pos location)) as Hx.
    rewrite eqb_spec, add_spec, mul_spec.
    change (Prim2SF 0%float) with (S754_zero false).
    unfold SF64add, SF64mul in *.
    destruct (SFmul prec emax _ _)
      as [[|]|[|]| |[|] mx ex]; try discriminate Hx;
      cbn [SFadd]; rewrite SFeqb_refl_finite; reflexivity.
  - rewrite ltb_spec in E. change (Prim2SF 0%float) with (S754_zero false) in E.
    rewrite eqb_spec, mul_spec, Hm.
    change (Prim2SF 0%float) with (S754_zero false).
    destruct (Prim2SF hours) as [[|]|[|]| |[|] mx ex]; try discriminate Hh;
      try discriminate E.
    reflexivity.
Qed.

(** The cursor stays among the time values a [Date] can hold. *)
Lemma run_loop_cursor_valid l a :
  valid_time (cursor a) ->
  (forall e, In e l -> valid_time (created_at e)) ->
  valid_time (cursor (run_loop l a)).
Proof.
  intros Ha Hl. unfold valid_time in *.
  pose proof (run_loop_cursor_ge l a).
  rewrite run_loop_cursor in *.
  split; [lia|].
  apply fold_max_bound; [lia|]. intros e He. apply (Hl e He).
Qed.

Lemma label_of_binary64 (r : float) :
  label_of r
  = if negb (is_finite r) then "unknown"
    else if (r <? 0x1.6666666666666p-1)%float then "happy"
    else if (r <? 1)%float then "due_soon" else "needs_feed".
Proof. unfold label_of. rewrite dec_0_7_binary64. reflexivity. Qed.

(** Zero divided by a positive number is zero. *)
Lemma zero_div_pos (b : float) :
  (0 <? b)%float = true -> (0 / b)%float = 0%float.
Proof.
  intros Hb. apply ltb_zero_pos in Hb.
  apply Prim2SF_inj. rewrite div_spec.
  change (Prim2SF 0%float) with (S754_zero false).
  destruct (Prim2SF b) as [[|]|[|]| |[|] m k]; try discriminate Hb;
    reflexivity.
Qed.

(** ** Totals of positive sign *)

Lemma signed_hours_times_multiplier (hours : float) (location : string) :
  sf_signed false (Prim2SF hours) = true ->
  sf_signed false (Prim2SF (nmul hours (locationMultiplier location))) = true
  /\ ((0 <? hours)%float = false ->
      Prim2SF (nmul hours (locationMultiplier location)) = S754_zero false).
Proof.
  intros Hh. destruct (locationMultiplier_finite location) as (m & k & Hm).
  cbn [nmul Binary64]. rewrite mul_spec, ltb_spec, Hm.
  change (Prim2SF 0%float) with (S754_zero false).
  destruct (Prim2SF hours) as [[|]|[|]| |[|] mx ex]; try discriminate Hh;
    (split; [|try discriminate; reflexivity]); try reflexivity.
  unfold SF64mul, SFmul. apply (binary_round_aux_sign false). lia.
Qed.

(** With a total of positive sign and hours that are not negative, the
    guard [hours > 0] makes no difference. *)
Lemma add_segment_live (s hours : float) (location : string) :
  sf_signed false (Prim2SF s) = true ->
  sf_signed false (Prim2SF hours) = true ->
  add_segment s hours location
  = nadd s (nmul hours (locationMultiplier location)).
Proof.
  intros Hs Hh. unfold add_segment.
  change (of_Z 0) with 0%float. cbn [nlt Binary64].
  destruct (0 <? hours)%float eqn:E; [reflexivity|].
  destruct (signed_hours_times_multiplier hours location Hh) as [_ Hz].
  apply Prim2SF_inj. cbn [nadd Binary64]. rewrite add_spec, (Hz E).
  symmetry. apply SFadd_zero_r, Hs.
Qed.

Lemma add_segment_signed (s hours : float) (location : string) :
  sf_signed false (Prim2SF s) = true ->
  sf_signed false (Prim2SF (add_segment s hours location)) = true.
Proof.
  intros Hs. unfold add_segment.
  change (of_Z 0) with 0%float. cbn [nlt nadd nmul Binary64].
  destruct (0 <? hours)%float eqn:E; [|exact Hs].
  rewrite add_spec, mul_spec.
  apply SFadd_signed; [exact Hs|].
  apply SFmul_pos; [apply ltb_zero_pos, E | apply locationMultiplier_pos].
Qed.

Lemma loop_body_signed a e :
  sf_signed false (Prim2SF (stressUnits a)) = true ->
  sf_signed false (Prim2SF (stressUnits (loop_body a e))) = true.
Proof.
  intros Ha. unfold loop_body.
  destruct (created_at e <=? cursor a); [exact Ha|].
  cbn [stressUnits]. apply add_segment_signed, Ha.
Qed.

Lemma run_loop_signed l : forall a,
  sf_signed false (Prim2SF (stressUnits a)) = true ->
  sf_signed false (Prim2SF (stressUnits (run_loop l a))) = true.
Proof.
  unfold run_loop.
  induction l as [|e l IH]; intros a Ha; simpl; [exact Ha|].
  apply IH, loop_body_signed, Ha.
Qed.

Lemma strict_eq_refl_signed (x : float) :
  sf_signed false (Prim2SF x) = true -> strict_eq x x = true.
Proof.
  intros Hx. cbn [strict_eq Binary64]. rewrite eqb_spec, SFeqb_refl_finite.
  destruct (Prim2SF x); try reflexivity. discriminate Hx.
Qed.

(** A live event adds the hours since the cursor times the multiplier of
    the current location, whatever the reference time. *)
Lemma loop_body_live_binary64 a e :
  valid_time (cursor a) -> valid_time (created_at e) ->
  sf_signed false (Prim2SF (stressUnits a)) = true ->
  cursor a < created_at e ->
  loop_body a e
  = {| cursor := created_at e;
       currentLocation := apply_move (currentLocation a) e;
       stressUnits :=
         nadd (stressUnits a)
              (nmul (hoursBetween (TimeValue (cursor a))
                                  (TimeValue (created_at e)))
                    (locationMultiplier (currentLocation a))) |}.
Proof.
  intros Hc He Hs Hlt. unfold loop_body.
  destruct (created_at e <=? cursor a) eqn:E; [lia|].
  unfold hoursBetween. cbn [time_of].
  rewrite add_segment_live; [reflexivity | exact Hs |].
  apply hours_not_negative; [exact Hc | exact He | lia].
Qed.


End Binary64Facts.

(** ** The stress on binary64 grows with the reference time *)

(** A float of the format between two positive finite floats is positive
    and finite. *)
Lemma between_finite (x : spec_float) (m1 m2 : positive) (e1 e2 : Z) :
  SpecFloat.valid_binary prec emax x = true ->
  SFleb (S754_finite false m1 e1) x = true ->
  SFleb x (S754_finite false m2 e2) = true ->
  exists mx ex,
    x = S754_finite false mx ex /\ bounded prec emax mx ex = true /\ e1 <= ex.
Proof.
  intros Hv Hlo Hhi.
  destruct x as [[|]|[|]| |[|] mx ex]; try discriminate Hlo;
    try discriminate Hhi.
  exists mx, ex. split; [reflexivity|]. split; [exact Hv|].
  unfold SFleb, SFcompare in Hlo.
  destruct (Z.compare_spec e1 ex); try lia; discriminate Hlo.
Qed.

Lemma rounds_one :
  rounds 1 (S754_finite false 4503599627370496 (-52)).
Proof.
  apply (rounds_compat (inject_Z (Z.pos 4503599627370496) * pow2 (-52))).
  - change (Z.pos 4503599627370496) with (2 ^ 52).
    change (-52) with (0 - 52). rewrite pow2_shift by lia. reflexivity.
  - apply rounds_canonical. vm_compute. reflexivity.
Qed.

Lemma rounds_two_55 :
  rounds (inject_Z (2 ^ 55)) (S754_finite false 4503599627370496 3).
Proof.
  apply (rounds_compat (inject_Z (Z.pos 4503599627370496) * pow2 3)).
  - rewrite (pow2_Z 3) by lia. rewrite <- inject_Z_mult. reflexivity.
  - apply rounds_canonical. vm_compute. reflexivity.
Qed.

Section Binary64Order.
#[local] Existing Instance Binary64.
Implicit Types (a : Acc Binary64) (e : MoveEvent) (l : list MoveEvent).

(** The milliseconds from the cursor to a later time, as a float: positive,
    finite and at least 1. *)
Lemma elapsed_finite (c t : Z) :
  valid_time c -> valid_time t -> c < t ->
  exists mx ex,
    Prim2SF (nsub (of_Z t) (of_Z c)) = S754_finite false mx ex
    /\ bounded prec emax mx ex = true
    /\ 1 <= Z.pos (digits2_pos mx) + ex
    /\ rounds (inject_Z (t - c)) (S754_finite false mx ex).
Proof.
  intros Hc Ht Hlt. cbn [nsub of_Z Binary64]. rewrite sub_spec.
  pose proof (rounds_SFsub _ _ t c
                (sf_holds_float_of_Z t (valid_time_small t Ht))
                (sf_holds_float_of_Z c (valid_time_small c Hc))
                (Prim2SF_valid _) (Prim2SF_valid _) Hlt) as Hr.
  pose proof (Prim2SF_valid (float_of_Z t - float_of_Z c)) as Hv.
  rewrite sub_spec in Hv. unfold SF64sub in *.
  set (x := SFsub prec emax (Prim2SF (float_of_Z t)) (Prim2SF (float_of_Z c)))
    in *.
  assert (Hlo : SFleb (S754_finite false 4503599627370496 (-52)) x = true).
  { apply (rounds_mono _ _ _ _ rounds_one Hr).
    change 1%Q with (inject_Z 1). rewrite <- Zle_Qle. lia. }
  assert (Hhi : SFleb x (S754_finite false 4503599627370496 3) = true).
  { apply (rounds_mono _ _ _ _ Hr rounds_two_55).
    rewrite <- Zle_Qle. unfold valid_time in *.
    change (2 ^ 55) with 36028797018963968. lia. }
  destruct (between_finite x _ _ _ _ Hv Hlo Hhi) as (mx & ex & Hx & Hb & He).
  exists mx, ex. rewrite Hx in *.
  split; [reflexivity|]. split; [exact Hb|]. split; [|exact Hr].
  destruct (bounded_canonical _ _ Hb) as [Hcan _].
  unfold fexp, emin, prec, emax in Hcan. lia.
Qed.

Lemma ms_per_hour_binary64 :
  Prim2SF ms_per_hour = S754_finite false 7730941132800000 (-31).
Proof. vm_compute. reflexivity. Qed.

(** The hours from the cursor to a later time grow with that time. *)
Lemma hours_mono (c t1 t2 : Z) :
  valid_time c -> valid_time t1 -> valid_time t2 ->
  c < t1 -> t1 <= t2 ->
  SFleb (Prim2SF (ndiv (nsub (of_Z t1) (of_Z c)) ms_per_hour))
        (Prim2SF (ndiv (nsub (of_Z t2) (of_Z c)) ms_per_hour)) = true.
Proof.
  intros Hc H1 H2 Hlt Hle.
  destruct (elapsed_finite c t1 Hc H1 Hlt) as (m1 & e1 & Hx1 & Hb1 & Hd1 & Hr1).
  destruct (elapsed_finite c t2 Hc H2 ltac:(lia))
    as (m2 & e2 & Hx2 & Hb2 & Hd2 & Hr2).
  cbn [ndiv Binary64]. rewrite !div_spec, Hx1, Hx2, ms_per_hour_binary64.
  unfold SF64div.
  apply SFdiv_mono; try assumption.
  - vm_compute. reflexivity.
  - change (Z.pos (digits2_pos 7730941132800000)) with 53.
    unfold emin, prec, emax. lia.
  - change (Z.pos (digits2_pos 7730941132800000)) with 53.
    unfold emin, prec, emax. lia.
  - apply (rounds_mono _ _ _ _ Hr1 Hr2). rewrite <- Zle_Qle. lia.
Qed.

(** What the final segment adds: nothing up to the cursor, the hours times
    the multiplier after it. *)
Lemma final_segment_binary64 (s : float) (c t : Z) (location : string) :
  valid_time c -> valid_time t ->
  sf_signed false (Prim2SF s) = true ->
  exists p,
    Prim2SF (add_segment s (ndiv (nsub (of_Z t) (of_Z c)) ms_per_hour) location)
    = SFadd prec emax (Prim2SF s) p
    /\ sf_signed false p = true
    /\ SpecFloat.valid_binary prec emax p = true
    /\ (t <= c -> p = S754_zero false)
    /\ (c < t ->
        p = SFmul prec emax
              (Prim2SF (ndiv (nsub (of_Z t) (of_Z c)) ms_per_hour))
              (Prim2SF (locationMultiplier location))).
Proof.
  intros Hc Ht Hs.
  destruct (Z_lt_le_dec c t) as [Hlt | Hge].
  - exists (Prim2SF (@nmul Binary64
                       (ndiv (nsub (of_Z t) (of_Z c)) ms_per_hour)
                       (locationMultiplier location))).
    assert (Hh : sf_signed false
                   (Prim2SF (ndiv (nsub (of_Z t) (of_Z c)) ms_per_hour)) = true)
      by (apply hours_not_negative; [assumption | assumption | lia]).
    rewrite (add_segment_live s _ location Hs Hh).
    cbn [nadd nmul Binary64]. rewrite add_spec.
    split; [reflexivity|].
    split; [apply (signed_hours_times_multiplier _ location Hh)|].
    split; [apply Prim2SF_valid|].
    split; [lia|]. intros _. rewrite mul_spec. reflexivity.
  - exists (S754_zero false).
    unfold add_segment. rewrite (hours_not_positive c t Hc Ht Hge).
    split; [symmetry; apply SFadd_zero_r, Hs|].
    split; [reflexivity|]. split; [reflexivity|].
    split; [reflexivity | lia].
Qed.

(** The stress on binary64 never decreases as the reference time
    advances. *)
Lemma stress_mono_binary64 (f : Ferment Binary64) l (now1 now2 : Z) :
  (forall lastFed, last_fed_at f = TimeValue lastFed -> valid_time lastFed) ->
  (forall x, In x l -> valid_time (created_at x)) ->
  valid_time now1 -> valid_time now2 ->
  now1 <= now2 ->
  (stress (calculateFermentStatus f l (TimeValue now1))
   <=? stress (calculateFermentStatus f l (TimeValue now2)))%float = true.
Proof.
  intros Hfedv Hev Hv1 Hv2 Hle. rewrite leb_spec.
  destruct (last_fed_at f) as [|lastFed] eqn:Hfed.
  - unfold calculateFermentStatus. rewrite Hfed. vm_compute. reflexivity.
  - destruct (status_valid f l (TimeValue now1) lastFed Hfed) as (-> & _).
    destruct (status_valid f l (TimeValue now2) lastFed Hfed) as (-> & _).
    cbn [time_of].
    set (a := run_loop (sort_events l) (start f lastFed)).
    assert (Hc : valid_time (cursor a)).
    { apply run_loop_cursor_valid; [exact (Hfedv lastFed eq_refl)|].
      intros x Hx. apply Hev, sort_events_In, Hx. }
    assert (Hs : sf_signed false (Prim2SF (stressUnits a)) = true)
      by (apply run_loop_signed; vm_compute; reflexivity).
    destruct (final_segment_binary64 (stressUnits a) (cursor a) now1
                (currentLocation a) Hc Hv1 Hs)
      as (p1 & -> & Hs1 & Hp1 & Hz1 & Hl1).
    destruct (final_segment_binary64 (stressUnits a) (cursor a) now2
                (currentLocation a) Hc Hv2 Hs)
      as (p2 & -> & Hs2 & Hp2 & Hz2 & Hl2).
    apply SFadd_mono; try assumption; [apply Prim2SF_valid|].
    destruct (Z_lt_le_dec (cursor a) now1) as [Hlive | Hstale].
    + rewrite (Hl1 Hlive), (Hl2 ltac:(lia)).
      destruct (locationMultiplier_finite (currentLocation a))
        as (m & k & Hm).
      pose proof (Prim2SF_valid (locationMultiplier (currentLocation a))) as Hvm.
      rewrite Hm in *.
      apply SFmul_mono; try apply Prim2SF_valid; try exact Hvm.
      * apply hours_not_negative; [assumption | assumption | lia].
      * apply hours_not_negative; [assumption | assumption | lia].
      * apply hours_mono; assumption.
    + rewrite (Hz1 Hstale). apply SFleb_zero_l, Hs2.
Qed.



End Binary64Order.

(** * The claims *)

(** ** C1: single-location equivalence *)

(** C1 as stated fails.  A marker event after the reference time is
    integrated up to the event: with the last feed at hour 0, a marker at
    hour 10 and now at hour 5 on the counter, the stress is 10 while the
    hours from the last feed to now, times the multiplier, are 5 (exact
    arithmetic and binary64).  Two more inputs bound what can be kept: with
    now before the last feed (hour 1 against hour 5, no events) the final
    segment is dropped and the stress is 0, not the negative signed product;
    and on binary64 the sum of two segments (5 and 7 hours in the fridge)
    rounds to 3.9999999999999996 while 12 hours times 1/3 round to 4. *)
Lemma single_location_fails_as_stated :
  ~ (forall (f : Ferment Exact) (events : list MoveEvent) (now : Date)
            (lastFed : Z),
        last_fed_at f = TimeValue lastFed ->
        (forall e, In e events -> new_storage_location e = None) ->
        strict_eq (stress (calculateFermentStatus f events now))
                  (nmul (hoursBetween (last_fed_at f) now)
                        (locationMultiplier (storage_location f))) = true)
  /\ ~ (forall (f : Ferment Binary64) (events : list MoveEvent) (now : Date)
               (lastFed : Z),
        last_fed_at f = TimeValue lastFed ->
        (forall e, In e events -> new_storage_location e = None) ->
        strict_eq (stress (calculateFermentStatus f events now))
                  (nmul (hoursBetween (last_fed_at f) now)
                        (locationMultiplier (storage_location f))) = true)
  /\ strict_eq
       (stress (calculateFermentStatus
                  (ferment_of (N := Exact) (XFin 16) (TimeValue (5 * hour)) "counter")
                  [] (TimeValue hour)))
       (nmul (hoursBetween (TimeValue (5 * hour)) (TimeValue hour))
             (locationMultiplier "counter")) = false
  /\ strict_eq
       (stress (calculateFermentStatus
                  (ferment_of (N := Binary64) 16%float (TimeValue 0) "fridge")
                  [move (5 * hour) None] (TimeValue (12 * hour))))
       (nmul (hoursBetween (TimeValue 0) (TimeValue (12 * hour)))
             (locationMultiplier "fridge")) = false.
Proof.
  assert (Hnone : forall e, In e [move (10 * hour) None] ->
                            new_storage_location e = None)
    by (intros e [<- | []]; reflexivity).
  split; [|split; [|split]].
  - intros Hclaim.
    specialize (Hclaim
                  (ferment_of (N := Exact) (XFin 16) (TimeValue 0) "counter")
                  [move (10 * hour) None] (TimeValue (5 * hour)) 0 eq_refl
                  Hnone).
    vm_compute in Hclaim. discriminate.
  - intros Hclaim.
    specialize (Hclaim
                  (ferment_of (N := Binary64) 16%float (TimeValue 0) "counter")
                  [move (10 * hour) None] (TimeValue (5 * hour)) 0 eq_refl
                  Hnone).
    vm_compute in Hclaim. discriminate.
  - vm_compute. reflexivity.
  - vm_compute. reflexivity.
Qed.

(** C1, amended.  With a valid last feed, a reference time at or after it,
    no event later than the reference time and no event carrying a location,
    the stress equals the hours from the last feed to now times the
    multiplier of the record's location, in exact arithmetic.  On binary64
    the equality is exact when no event lies after the last feed, which
    includes the empty event list: one segment from the last feed to now. *)
Theorem single_location_equivalence :
  (forall (f : Ferment Exact) (events : list MoveEvent) (lastFed now : Z),
      last_fed_at f = TimeValue lastFed ->
      lastFed <= now ->
      (forall e, In e events -> created_at e <= now) ->
      (forall e, In e events -> new_storage_location e = None) ->
      strict_eq (stress (calculateFermentStatus f events (TimeValue now)))
                (nmul (hoursBetween (last_fed_at f) (TimeValue now))
                      (locationMultiplier (storage_location f))) = true)
  /\ (forall (f : Ferment Binary64) (events : list MoveEvent) (lastFed now : Z),
      last_fed_at f = TimeValue lastFed ->
      valid_time lastFed -> valid_time now ->
      lastFed <= now ->
      (forall e, In e events -> created_at e <= lastFed) ->
      strict_eq (stress (calculateFermentStatus f events (TimeValue now)))
                (nmul (hoursBetween (last_fed_at f) (TimeValue now))
                      (locationMultiplier (storage_location f))) = true).
Proof.
  split.
  - intros f events lastFed now Hfed Hnow Hbefore Hnone.
    destruct (stress_valid f events (TimeValue now) lastFed Hfed)
      as (s & Hs & _ & ->).
    destruct (run_loop_single_location lastFed now (storage_location f)
                (sort_events events) (start f lastFed) (inject_Z 0))
      as (s' & Hs' & Hinv & Hloc & Hcur).
    + intros e He. apply Hnone, sort_events_In, He.
    + intros e He. apply Hbefore, sort_events_In, He.
    + simpl. lia.
    + reflexivity.
    + reflexivity.
    + cbn [start cursor]. rewrite hours_q_refl. ring.
    + assert (s' = s) as -> by congruence.
      rewrite final_segment, Hloc, Hfed.
      unfold hoursBetween. cbn [time_of].
      rewrite hours_exact, locationMultiplier_exact.
      cbn [nmul strict_eq Exact xmul xeqb].
      apply Qeq_bool_iff.
      set (c := cursor (run_loop (sort_events events) (start f lastFed))) in *.
      pose proof (hours_q_split lastFed c now) as Hsplit.
      destruct (Qltb 0 (hours_q c now)) eqn:E.
      * rewrite Hinv, <- Hsplit. ring.
      * apply Qltb_ge in E.
        assert (Hge : (0 <= hours_q c now)%Q).
        { destruct (Qlt_le_dec (hours_q c now) 0) as [Hneg | Hok]; [|exact Hok].
          pose proof (hours_q_mono c c now (proj2 Hcur)) as Hmono.
          pose proof (hours_q_refl c) as Hrefl. lra. }
        rewrite Hinv, <- Hsplit.
        assert (Hzero : (hours_q c now == 0)%Q) by lra.
        rewrite Hzero. ring.
  - intros f events lastFed now Hfed HvL Hvn Hnow Hstale.
    destruct (status_valid f events (TimeValue now) lastFed Hfed) as (-> & _).
    rewrite (run_loop_all_stale f events lastFed Hstale), Hfed.
    unfold hoursBetween. cbn [start cursor currentLocation stressUnits time_of].
    apply add_segment_from_zero, hours_not_negative; assumption.
Qed.

Lemma single_location_equivalence_witness :
  strict_eq
    (stress (calculateFermentStatus
               (ferment_of (N := Exact) (XFin 16) (TimeValue 0) "fridge")
               [move (10 * hour) None; move (30 * hour) None]
               (TimeValue (48 * hour))))
    (nmul (hoursBetween (TimeValue 0) (TimeValue (48 * hour)))
          (locationMultiplier "fridge")) = true
  /\ strict_eq
       (stress (calculateFermentStatus
                  (ferment_of (N := Binary64) 16%float (TimeValue (10 * hour)) "fridge")
                  [move hour (Some "counter")] (TimeValue (17 * hour))))
       (nmul (hoursBetween (TimeValue (10 * hour)) (TimeValue (17 * hour)))
             (locationMultiplier "fridge")) = true.
Proof.
  split.
  - apply (proj1 single_location_equivalence
             (ferment_of (N := Exact) (XFin 16) (TimeValue 0) "fridge")
             [move (10 * hour) None; move (30 * hour) None] 0 (48 * hour)).
    + reflexivity.
    + vm_compute. discriminate.
    + intros e [<- | [<- | []]]; vm_compute; discriminate.
    + intros e [<- | [<- | []]]; reflexivity.
  - apply (proj2 single_location_equivalence
             (ferment_of (N := Binary64) 16%float (TimeValue (10 * hour)) "fridge")
             [move hour (Some "counter")] (10 * hour) (17 * hour)).
    + reflexivity.
    + unfold valid_time. vm_compute. split; discriminate.
    + unfold valid_time. vm_compute. split; discriminate.
    + vm_compute. discriminate.
    + intros e [<- | []]; vm_compute; discriminate.
Defined.

(** ** C2: the fridge scenario *)

(** C2.  Base interval 16, last feed at [T0], in the fridge, no events, now
    48 hours later: stress 16, ratio 1.0 and "needs_feed", with the
    multipliers 1 for the counter and 1/3 for the fridge.  In exact
    arithmetic for every [T0]; in binary64, where [48 * (1 / 3)] rounds to
    16, at the epoch and at a present-day instant. *)
Theorem fridge_scenario :
  (forall T0 : Z,
      let r := calculateFermentStatus
                 (ferment_of (N := Exact) (XFin 16) (TimeValue T0) "fridge")
                 [] (TimeValue (T0 + 48 * hour)) in
      xeqb (stress r) (XFin 16) = true /\
      xeqb (ratio r) (XFin 1) = true /\
      label r = "needs_feed")
  /\ calculateFermentStatus
       (ferment_of (N := Binary64) 16%float (TimeValue 0) "fridge")
       [] (TimeValue (0 + 48 * hour))
     = Build_Status (N := Binary64) 16%float 1%float "needs_feed"
  /\ calculateFermentStatus
       (ferment_of (N := Binary64) 16%float (TimeValue 1700000000000) "fridge")
       [] (TimeValue (1700000000000 + 48 * hour))
     = Build_Status (N := Binary64) 16%float 1%float "needs_feed"
  /\ locationMultiplier (N := Exact) "counter" = XFin 1
  /\ locationMultiplier (N := Exact) "fridge" = XFin (1 / 3)
  /\ locationMultiplier (N := Binary64) "counter" = 1%float
  /\ locationMultiplier (N := Binary64) "fridge" = (1 / 3)%float.
Proof.
  split; [|repeat split; vm_compute; reflexivity].
  intros T0 r. subst r.
  unfold calculateFermentStatus, ferment_of.
  cbn [last_fed_at base_feed_interval_hours sort_events run_loop fold_left
       start cursor stressUnits currentLocation storage_location].
  cbv zeta. cbn [stress ratio label].
  change (of_Z 0) with (XFin 0).
  rewrite !final_segment.
  assert (Hh : (hours_q T0 (T0 + 48 * hour) == 48)%Q).
  { unfold hours_q. rewrite inject_Z_plus.
    change (inject_Z (48 * hour)) with (172800000 # 1)%Q.
    change (inject_Z 3600000) with (3600000 # 1)%Q. field. }
  assert (Hpos : Qltb 0 (hours_q T0 (T0 + 48 * hour)) = true)
    by (apply Qltb_lt; rewrite Hh; reflexivity).
  rewrite Hpos.
  change (mult_q "fridge") with (1 / 3)%Q.
  rewrite ratio_exact by discriminate.
  rewrite label_of_exact.
  set (s := (0 + hours_q T0 (T0 + 48 * hour) * (1 / 3))%Q).
  assert (Hs : (s == 16)%Q) by (unfold s; rewrite Hh; reflexivity).
  assert (Hr : (s / 16 == 1)%Q) by (rewrite Hs; reflexivity).
  split; [apply Qeq_bool_iff, Hs|].
  split; [apply Qeq_bool_iff, Hr|].
  assert (E7 : Qltb (s / 16) (7 # 10) = false)
    by (apply Qltb_ge; rewrite Hr; discriminate).
  assert (E1 : Qltb (s / 16) 1 = false)
    by (apply Qltb_ge; rewrite Hr; discriminate).
  rewrite E7, E1. reflexivity.
Qed.

(** ** C3: the label thresholds *)

(** C3.  With a valid last feed and a finite ratio, the label is "happy"
    below 0.7, "due_soon" from 0.7 inclusive up to 1.0 exclusive, and
    "needs_feed" from 1.0 inclusive on; in exact arithmetic and on
    binary64, where [0.7] is the literal's value 0x1.6666666666666p-1. *)
Theorem label_boundaries_are_half_open :
  (forall (f : Ferment Exact) (events : list MoveEvent) (now : Date)
          (lastFed : Z) (q : Q),
      last_fed_at f = TimeValue lastFed ->
      ratio (calculateFermentStatus f events now) = XFin q ->
      let r := calculateFermentStatus f events now in
      ((q < 7 # 10)%Q -> label r = "happy") /\
      ((7 # 10 <= q)%Q -> (q < 1)%Q -> label r = "due_soon") /\
      ((1 <= q)%Q -> label r = "needs_feed"))
  /\ (forall (f : Ferment Binary64) (events : list MoveEvent) (now : Date)
             (lastFed : Z),
      last_fed_at f = TimeValue lastFed ->
      let r := calculateFermentStatus f events now in
      is_finite (ratio r) = true ->
      ((ratio r <? 0x1.6666666666666p-1)%float = true -> label r = "happy") /\
      ((0x1.6666666666666p-1 <=? ratio r)%float = true ->
       (ratio r <? 1)%float = true -> label r = "due_soon") /\
      ((1 <=? ratio r)%float = true -> label r = "needs_feed")).
Proof.
  split.
  - intros f events now lastFed q Hfed Hq r. subst r.
    destruct (status_valid f events now lastFed Hfed) as (_ & _ & ->).
    rewrite Hq, label_of_exact.
    destruct (Qltb q (7 # 10)) eqn:E7; destruct (Qltb q 1) eqn:E1;
      rewrite ?Qltb_lt, ?Qltb_ge in *;
      repeat split; intros; try reflexivity; lra.
  - intros f events now lastFed Hfed r Hfin. subst r.
    destruct (status_valid f events now lastFed Hfed) as (_ & _ & ->).
    rewrite label_of_binary64, Hfin. cbn [negb].
    repeat split.
    + intros ->. reflexivity.
    + intros H7 H1. rewrite (leb_not_ltb _ _ H7), H1. reflexivity.
    + intros H1.
      rewrite (leb_one_not_ltb_0_7 _ H1), (leb_not_ltb _ _ H1). reflexivity.
Qed.

Lemma label_boundaries_are_half_open_witness :
  (let r := calculateFermentStatus
              (ferment_of (N := Exact) (XFin 10) (TimeValue 0) "counter")
              [] (TimeValue (7 * hour)) in
   ((25200000 # 36000000 < 7 # 10)%Q -> label r = "happy") /\
   ((7 # 10 <= 25200000 # 36000000)%Q -> (25200000 # 36000000 < 1)%Q ->
    label r = "due_soon") /\
   ((1 <= 25200000 # 36000000)%Q -> label r = "needs_feed"))
  /\ (let r := calculateFermentStatus
                 (ferment_of (N := Binary64) 10%float (TimeValue 0) "counter")
                 [] (TimeValue (7 * hour)) in
      ((ratio r <? 0x1.6666666666666p-1)%float = true -> label r = "happy") /\
      ((0x1.6666666666666p-1 <=? ratio r)%float = true ->
       (ratio r <? 1)%float = true -> label r = "due_soon") /\
      ((1 <=? ratio r)%float = true -> label r = "needs_feed")).
Proof.
  split.
  - apply (proj1 label_boundaries_are_half_open
             (ferment_of (N := Exact) (XFin 10) (TimeValue 0) "counter")
             [] (TimeValue (7 * hour)) 0 (25200000 # 36000000));
      reflexivity.
  - apply (proj2 label_boundaries_are_half_open
             (ferment_of (N := Binary64) 10%float (TimeValue 0) "counter")
             [] (TimeValue (7 * hour)) 0); reflexivity.
Defined.

(** The thresholds themselves on binary64: the literal [0.7] and [1.0] and
    the numbers just below them, and a run whose ratio is 7/10. *)
Lemma label_boundaries_binary64 :
  dec_0_7 (N := Binary64) = 0x1.6666666666666p-1%float /\
  label_of (N := Binary64) 0x1.6666666666666p-1%float = "due_soon" /\
  label_of (N := Binary64) (next_down 0x1.6666666666666p-1%float) = "happy" /\
  label_of (N := Binary64) 1%float = "needs_feed" /\
  label_of (N := Binary64) (next_down 1%float) = "due_soon" /\
  calculateFermentStatus
    (ferment_of (N := Binary64) 10%float (TimeValue 0) "counter")
    [] (TimeValue (7 * hour))
  = Build_Status (N := Binary64) 7%float 0x1.6666666666666p-1%float "due_soon".
Proof. vm_compute. repeat split. Qed.

(** ** C4: the degenerate base interval *)

(** C4 as stated fails: a negative base interval gives a finite, negative
    ratio, which is below 0.7, so the label is "happy" and not "unknown".
    Here 48 hours in the fridge with a base interval of -16 (ratio -1), in
    exact arithmetic and in binary64. *)
Lemma negative_interval_is_not_unknown :
  ~ (forall (f : Ferment Exact) (events : list MoveEvent) (now : Date)
            (lastFed : Z),
        last_fed_at f = TimeValue lastFed ->
        xle (base_feed_interval_hours f) (XFin 0) = true ->
        label (calculateFermentStatus f events now) = "unknown")
  /\ ~ (forall (f : Ferment Binary64) (events : list MoveEvent) (now : Date)
               (lastFed : Z),
        last_fed_at f = TimeValue lastFed ->
        (base_feed_interval_hours f <=? 0)%float = true ->
        label (calculateFermentStatus f events now) = "unknown").
Proof.
  split; intros Hclaim.
  - specialize (Hclaim (ferment_of (N := Exact) (XFin (-16)) (TimeValue 0) "fridge")
                  [] (TimeValue (48 * hour)) 0 eq_refl eq_refl).
    vm_compute in Hclaim. discriminate.
  - specialize (Hclaim (ferment_of (N := Binary64) (-16)%float (TimeValue 0) "fridge")
                  [] (TimeValue (48 * hour)) 0 eq_refl eq_refl).
    vm_compute in Hclaim. discriminate.
Qed.

(** C4, amended.  With a valid last feed and a base interval equal to zero,
    the ratio is not finite and the label is "unknown"; in exact arithmetic
    and on binary64 (where the base interval may be either zero). *)
Theorem zero_interval_is_unknown :
  (forall (f : Ferment Exact) (events : list MoveEvent) (now : Date)
          (lastFed : Z),
      last_fed_at f = TimeValue lastFed ->
      xeqb (base_feed_interval_hours f) (XFin 0) = true ->
      let r := calculateFermentStatus f events now in
      isFinite (ratio r) = false /\ label r = "unknown")
  /\ (forall (f : Ferment Binary64) (events : list MoveEvent) (now : Date)
             (lastFed : Z),
      last_fed_at f = TimeValue lastFed ->
      (base_feed_interval_hours f =? 0)%float = true ->
      let r := calculateFermentStatus f events now in
      isFinite (ratio r) = false /\ label r = "unknown").
Proof.
  split.
  - intros f events now lastFed Hfed Hzero r. subst r.
    destruct (status_valid f events now lastFed Hfed) as (_ & Hr & ->).
    destruct (stress_finite f events now) as (s & Hs & _).
    rewrite Hr, Hs.
    destruct (base_feed_interval_hours f) as [| [|] | b]; simpl in Hzero;
      try discriminate.
    simpl. rewrite Hzero.
    destruct (Qeq_bool s 0); split; reflexivity.
  - intros f events now lastFed Hfed Hzero r. subst r.
    destruct (status_valid f events now lastFed Hfed) as (_ & Hr & ->).
    assert (Hfin : is_finite (ratio (calculateFermentStatus f events now)) = false).
    { rewrite Hr. apply div_by_zero_not_finite;
        [apply stress_nonneg_binary64 | exact Hzero]. }
    split; [exact Hfin|].
    rewrite label_of_binary64, Hfin. reflexivity.
Qed.

Lemma zero_interval_is_unknown_witness :
  (let r := calculateFermentStatus
              (ferment_of (N := Exact) (XFin 0) (TimeValue 0) "fridge")
              [move (8 * hour) (Some "counter")] (TimeValue (48 * hour)) in
   isFinite (ratio r) = false /\ label r = "unknown")
  /\ (let r := calculateFermentStatus
                 (ferment_of (N := Binary64) 0%float (TimeValue 0) "fridge")
                 [move (8 * hour) (Some "counter")] (TimeValue (48 * hour)) in
      isFinite (ratio r) = false /\ label r = "unknown").
Proof.
  split.
  - apply (proj1 zero_interval_is_unknown
             (ferment_of (N := Exact) (XFin 0) (TimeValue 0) "fridge")
             [move (8 * hour) (Some "counter")] (TimeValue (48 * hour)) 0);
      reflexivity.
  - apply (proj2 zero_interval_is_unknown
             (ferment_of (N := Binary64) 0%float (TimeValue 0) "fridge")
             [move (8 * hour) (Some "counter")] (TimeValue (48 * hour)) 0);
      reflexivity.
Defined.

(** The zero base interval on binary64 numbers: with a positive stress the
    ratio is infinite, with a zero stress it is NaN. *)
Lemma zero_interval_binary64 :
  calculateFermentStatus
    (ferment_of (N := Binary64) 0%float (TimeValue 0) "fridge")
    [] (TimeValue (48 * hour))
  = Build_Status (N := Binary64) 16%float infinity "unknown" /\
  is_nan (ratio (calculateFermentStatus
                   (ferment_of (N := Binary64) 0%float (TimeValue 0) "fridge")
                   [] (TimeValue 0))) = true.
Proof. vm_compute. split; reflexivity. Qed.

(** ** C5: the unparseable last feed *)

(** C5.  When [last_fed_at] does not parse, the function returns
    [{stress: 0, ratio: 0, label: "unknown"}] whatever the events, the
    reference time and the other fields are; it returns a value, so nothing
    is raised.  This holds at every number instance. *)
Theorem invalid_last_fed_short_circuits {N : JSNumber}
    (f : Ferment N) (events : list MoveEvent) (now : Date) :
  last_fed_at f = InvalidDate ->
  calculateFermentStatus f events now
  = {| stress := of_Z 0; ratio := of_Z 0; label := "unknown" |}.
Proof.
  intros Hfed. unfold calculateFermentStatus. rewrite Hfed. reflexivity.
Qed.

Lemma invalid_last_fed_short_circuits_witness :
  calculateFermentStatus
    (ferment_of (N := Binary64) 16%float InvalidDate "counter")
    [move (8 * hour) (Some "fridge")] (TimeValue (32 * hour))
  = Build_Status (N := Binary64) 0%float 0%float "unknown".
Proof.
  apply (invalid_last_fed_short_circuits (N := Binary64)). reflexivity.
Defined.

(** ** C6: stale events *)

(** C6.  Events at or before [last_fed_at], put in front of the event list
    in any number, leave the whole result unchanged.  This holds at every
    number instance. *)
Theorem stale_events_are_a_noop {N : JSNumber}
    (f : Ferment N) (stale events : list MoveEvent) (now : Date) (lastFed : Z) :
  last_fed_at f = TimeValue lastFed ->
  (forall e, In e stale -> created_at e <= lastFed) ->
  calculateFermentStatus f (stale ++ events) now
  = calculateFermentStatus f events now.
Proof.
  intros Hfed Hstale. unfold calculateFermentStatus. rewrite Hfed.
  rewrite (run_loop_prepend_stale lastFed stale events (start f lastFed));
    [reflexivity | simpl; lia | exact Hstale].
Qed.

Lemma stale_events_are_a_noop_witness :
  calculateFermentStatus
    (ferment_of (N := Binary64) 16%float (TimeValue (10 * hour)) "counter")
    ([move (10 * hour) (Some "fridge"); move hour (Some "fridge")]
       ++ [move (18 * hour) (Some "fridge")])
    (TimeValue (42 * hour))
  = calculateFermentStatus
      (ferment_of (N := Binary64) 16%float (TimeValue (10 * hour)) "counter")
      [move (18 * hour) (Some "fridge")] (TimeValue (42 * hour)).
Proof.
  apply (stale_events_are_a_noop (N := Binary64)) with (lastFed := 10 * hour).
  - reflexivity.
  - intros e [<- | [<- | []]]; vm_compute; discriminate.
Defined.

(** ** C7: monotonicity in the reference time *)

(** C7.  With the record and the events fixed, a later reference time never
    gives a smaller stress: in exact arithmetic, and on binary64 for the
    time values a [Date] can hold, where rounding to nearest is monotone and
    so are the subtraction, the division by 36e5, the product with the
    multiplier and the sum the final segment goes through. *)
Theorem stress_is_monotone_in_now :
  (forall (f : Ferment Exact) (events : list MoveEvent) (now1 now2 : Z),
      now1 <= now2 ->
      xle (stress (calculateFermentStatus f events (TimeValue now1)))
          (stress (calculateFermentStatus f events (TimeValue now2))) = true)
  /\ (forall (f : Ferment Binary64) (events : list MoveEvent) (now1 now2 : Z),
      (forall lastFed, last_fed_at f = TimeValue lastFed ->
                       valid_time lastFed) ->
      (forall x, In x events -> valid_time (created_at x)) ->
      valid_time now1 -> valid_time now2 ->
      now1 <= now2 ->
      (stress (calculateFermentStatus f events (TimeValue now1))
       <=? stress (calculateFermentStatus f events (TimeValue now2)))%float
      = true).
Proof.
  split.
  - intros f events now1 now2 Hle.
    destruct (last_fed_at f) as [|lastFed] eqn:Hfed.
    + unfold calculateFermentStatus. rewrite Hfed. reflexivity.
    + destruct (stress_valid f events (TimeValue now1) lastFed Hfed)
        as (s & Hs & Hpos & ->).
      destruct (stress_valid f events (TimeValue now2) lastFed Hfed)
        as (s' & Hs' & _ & ->).
      assert (s' = s) as -> by congruence.
      rewrite !final_segment. simpl. apply Qle_bool_iff.
      set (a := run_loop (sort_events events) (start f lastFed)).
      pose proof (mult_q_pos (currentLocation a)) as Hm.
      pose proof (hours_q_mono (cursor a) now1 now2 Hle) as Hh.
      destruct (Qltb 0 (hours_q (cursor a) now1)) eqn:E1;
        destruct (Qltb 0 (hours_q (cursor a) now2)) eqn:E2;
        rewrite ?Qltb_lt, ?Qltb_ge in *; nra.
  - intros f events now1 now2 Hfed Hev Hv1 Hv2 Hle.
    apply stress_mono_binary64; assumption.
Qed.

Lemma stress_is_monotone_in_now_witness :
  (stress (calculateFermentStatus
             (ferment_of (N := Binary64) 16%float (TimeValue 0) "fridge")
             [move (8 * hour) (Some "counter"); move (3 * hour) None]
             (TimeValue (4 * hour)))
   <=? stress (calculateFermentStatus
                 (ferment_of (N := Binary64) 16%float (TimeValue 0) "fridge")
                 [move (8 * hour) (Some "counter"); move (3 * hour) None]
                 (TimeValue (32 * hour))))%float
  = true.
Proof.
  apply (proj2 stress_is_monotone_in_now).
  - intros lastFed Hfed. injection Hfed as <-.
    unfold valid_time. vm_compute. split; discriminate.
  - intros x [<- | [<- | []]]; unfold valid_time; vm_compute;
      split; discriminate.
  - unfold valid_time. vm_compute. split; discriminate.
  - unfold valid_time. vm_compute. split; discriminate.
  - vm_compute. discriminate.
Defined.

(** The move mid-interval on binary64 numbers, at four reference times:
    before the move (whose segment of 8 hours is counted in full), at the
    move, and 12 and 24 hours after it. *)
Lemma move_mid_interval_binary64 :
  map (fun now =>
         stress (calculateFermentStatus
                   (ferment_of (N := Binary64) 16%float (TimeValue 0) "counter")
                   [move (8 * hour) (Some "fridge")] (TimeValue now)))
      [4 * hour; 8 * hour; 20 * hour; 32 * hour]
  = [8%float; 8%float; 12%float; 16%float].
Proof. vm_compute. reflexivity. Qed.

(** ** C8: the stress is never negative *)

(** C8.  The stress is never negative, for every record, event list and
    reference time (valid or not): a segment is added only when its hours
    are strictly positive, and every multiplier is positive.  In exact
    arithmetic and on binary64. *)
Theorem stress_is_nonnegative :
  (forall (f : Ferment Exact) (events : list MoveEvent) (now : Date),
      xle (XFin 0) (stress (calculateFermentStatus f events now)) = true)
  /\ (forall (f : Ferment Binary64) (events : list MoveEvent) (now : Date),
      (0 <=? stress (calculateFermentStatus f events now))%float = true).
Proof.
  split.
  - intros f events now.
    destruct (stress_finite f events now) as (s & -> & Hs).
    simpl. apply Qle_bool_iff, Hs.
  - intros f events now.
    apply leb_zero_nonneg, stress_nonneg_binary64.
Qed.

(** ** C9: a reference time before the last feed *)

(** C9.  With a valid last feed, a positive base interval and no events, a
    reference time strictly before the last feed gives stress 0, ratio 0
    and the label "happy": the negative final segment is dropped and the
    input is not treated as bad.  In exact arithmetic and on binary64. *)
Theorem now_before_last_fed_is_happy :
  (forall (f : Ferment Exact) (lastFed now : Z),
      last_fed_at f = TimeValue lastFed ->
      xlt (XFin 0) (base_feed_interval_hours f) = true ->
      now < lastFed ->
      let r := calculateFermentStatus f [] (TimeValue now) in
      xeqb (stress r) (XFin 0) = true /\
      xeqb (ratio r) (XFin 0) = true /\
      label r = "happy")
  /\ (forall (f : Ferment Binary64) (lastFed now : Z),
      last_fed_at f = TimeValue lastFed ->
      valid_time lastFed -> valid_time now ->
      (0 <? base_feed_interval_hours f)%float = true ->
      now < lastFed ->
      calculateFermentStatus f [] (TimeValue now)
      = Build_Status (N := Binary64) 0%float 0%float "happy").
Proof.
  split.
  - intros f lastFed now Hfed Hbase Hlt.
    unfold calculateFermentStatus. rewrite Hfed.
    cbn [sort_events run_loop fold_left start cursor stressUnits currentLocation].
    cbv zeta. cbn [stress ratio label].
    change (of_Z 0) with (XFin 0).
    rewrite !final_segment.
    assert (Hh : Qltb 0 (hours_q lastFed now) = false).
    { apply Qltb_ge. destruct (Qlt_le_dec 0 (hours_q lastFed now)) as [H|H];
        [pose proof (proj1 (hours_q_pos lastFed now) H); lia | exact H]. }
    rewrite Hh.
    destruct (base_feed_interval_hours f) as [| [|] | b]; simpl in Hbase;
      try discriminate.
    + repeat split; reflexivity.
    + apply Qltb_lt in Hbase.
      rewrite ratio_exact by lra. rewrite label_of_exact.
      assert (Hz : (0 / b == 0)%Q) by (field; lra).
      split; [reflexivity|]. split.
      * simpl. apply Qeq_bool_iff. exact Hz.
      * assert (Hhappy : Qltb (0 / b) (7 # 10) = true)
          by (apply Qltb_lt; rewrite Hz; reflexivity).
        rewrite Hhappy. reflexivity.
  - intros f lastFed now Hfed HvL Hvn Hbase Hlt.
    unfold calculateFermentStatus. rewrite Hfed.
    cbn [sort_events run_loop fold_left start cursor stressUnits currentLocation].
    cbv zeta. unfold add_segment. cbn [time_of].
    rewrite (hours_not_positive lastFed now HvL Hvn) by lia.
    change (of_Z 0) with 0%float. cbn [ndiv Binary64].
    rewrite (zero_div_pos _ Hbase). reflexivity.
Qed.

Lemma now_before_last_fed_is_happy_witness :
  (let r := calculateFermentStatus
              (ferment_of (N := Exact) (XFin 16) (TimeValue (5 * hour)) "fridge")
              [] (TimeValue hour) in
   xeqb (stress r) (XFin 0) = true /\
   xeqb (ratio r) (XFin 0) = true /\
   label r = "happy")
  /\ calculateFermentStatus
       (ferment_of (N := Binary64) 16%float (TimeValue (5 * hour)) "fridge")
       [] (TimeValue hour)
     = Build_Status (N := Binary64) 0%float 0%float "happy".
Proof.
  split.
  - apply (proj1 now_before_last_fed_is_happy
             (ferment_of (N := Exact) (XFin 16) (TimeValue (5 * hour)) "fridge")
             (5 * hour) hour); reflexivity.
  - apply (proj2 now_before_last_fed_is_happy
             (ferment_of (N := Binary64) 16%float (TimeValue (5 * hour)) "fridge")
             (5 * hour) hour);
      try reflexivity; unfold valid_time; vm_compute; split; discriminate.
Defined.

(** ** C10: events after the reference time *)



(** The same runs on binary64 numbers.  Now is hour 5 and the marker event
    is at hour 10: alone it gives a stress of 10; after a move to the fridge
    at hour 2 it gives 2 + 8/3, where hours counted to now would give 3. *)
Lemma events_after_now_binary64 :
  calculateFermentStatus
    (ferment_of (N := Binary64) 16%float (TimeValue 0) "counter")
    [move (10 * hour) None] (TimeValue (5 * hour))
  = Build_Status (N := Binary64) 10%float 0.625%float "happy"
  /\ stress (calculateFermentStatus
               (ferment_of (N := Binary64) 16%float (TimeValue 0) "counter")
               [move (2 * hour) (Some "fridge"); move (10 * hour) None]
               (TimeValue (5 * hour)))
     = (2 + 8 * (1 / 3))%float
  /\ stress (calculateFermentStatus
               (ferment_of (N := Binary64) 16%float (TimeValue 0) "counter")
               [move (2 * hour) (Some "fridge")] (TimeValue (5 * hour)))
     = 3%float.
Proof. vm_compute. repeat split; reflexivity. Qed.

(** * Beyond the claims *)

Local Open Scope list_scope.

(** * The order of the events, ties, and the names of the locations *)

Section SortFacts.
Context {N : JSNumber}.
Implicit Types (a : Acc N) (e : MoveEvent) (l : list MoveEvent).

Lemma insert_event_perm e l : Permutation (e :: l) (insert_event e l).
Proof.
  induction l as [|y l IH]; simpl; [reflexivity|].
  destruct (created_at e <=? created_at y); [reflexivity|].
  rewrite perm_swap. apply perm_skip, IH.
Qed.

Lemma sort_events_perm l : Permutation l (sort_events l).
Proof.
  induction l as [|e l IH]; simpl; [reflexivity|].
  rewrite <- insert_event_perm. apply perm_skip, IH.
Qed.

Lemma insert_event_sorted e l :
  StronglySorted le_time l -> StronglySorted le_time (insert_event e l).
Proof.
  induction 1 as [|y l Hl IH Hy]; simpl.
  - repeat constructor.
  - destruct (created_at e <=? created_at y) eqn:E.
    + constructor; [constructor; assumption|].
      constructor; [unfold le_time; lia|].
      rewrite Forall_forall in *. intros x Hx.
      specialize (Hy x Hx). unfold le_time in *. lia.
    + constructor; [exact IH|].
      rewrite Forall_forall in *. intros x Hx.
      apply insert_event_In in Hx. destruct Hx as [-> | Hx].
      * unfold le_time. lia.
      * apply Hy, Hx.
Qed.

Lemma sort_events_sorted l : StronglySorted le_time (sort_events l).
Proof.
  induction l as [|e l IH]; simpl; [constructor|].
  apply insert_event_sorted, IH.
Qed.

Lemma insert_event_strict e l :
  StronglySorted lt_time l ->
  (forall y, In y l -> created_at y <> created_at e) ->
  StronglySorted lt_time (insert_event e l).
Proof.
  induction 1 as [|y l Hl IH Hy]; intros Hne; simpl.
  - repeat constructor.
  - pose proof (Hne y (or_introl eq_refl)) as Hye.
    destruct (created_at e <=? created_at y) eqn:E.
    + constructor; [constructor; assumption|].
      constructor; [unfold lt_time; lia|].
      rewrite Forall_forall in *. intros x Hx.
      specialize (Hy x Hx). unfold lt_time in *. lia.
    + constructor.
      * apply IH. intros x Hx. apply Hne. right. exact Hx.
      * rewrite Forall_forall in *. intros x Hx.
        apply insert_event_In in Hx. destruct Hx as [-> | Hx].
        -- unfold lt_time. lia.
        -- apply Hy, Hx.
Qed.

Lemma sort_events_strict l :
  NoDup (map created_at l) -> StronglySorted lt_time (sort_events l).
Proof.
  induction l as [|e l IH]; simpl; intros Hnd; [constructor|].
  inversion Hnd as [|? ? Hnotin Hnd']; subst.
  apply insert_event_strict; [apply IH, Hnd'|].
  intros y Hy Heq. apply Hnotin. rewrite <- Heq.
  apply in_map, sort_events_In, Hy.
Qed.

(** A strictly ascending list is determined by its elements. *)
Lemma strictly_sorted_unique l : forall l',
  StronglySorted lt_time l -> StronglySorted lt_time l' ->
  (forall x, In x l <-> In x l') -> l = l'.
Proof.
  induction l as [|x l IH]; intros [|y l'] Hs Hs' Hin.
  - reflexivity.
  - exfalso. apply (proj2 (Hin y)). left. reflexivity.
  - exfalso. apply (proj1 (Hin x)). left. reflexivity.
  - inversion Hs as [|? ? Hsl Hx]; inversion Hs' as [|? ? Hsl' Hy]; subst.
    rewrite Forall_forall in Hx, Hy.
    assert (x = y) as ->.
    { destruct (proj1 (Hin x) (or_introl eq_refl)) as [Heq | Hxl'];
        [symmetry; exact Heq|].
      destruct (proj2 (Hin y) (or_introl eq_refl)) as [Heq | Hyl];
        [exact Heq|].
      specialize (Hx y Hyl). specialize (Hy x Hxl'). unfold lt_time in *. lia. }
    f_equal. apply IH; try assumption.
    intros z. split; intros Hz.
    + destruct (proj1 (Hin z) (or_intror Hz)) as [<- | H]; [|exact H].
      specialize (Hx y Hz). unfold lt_time in Hx. lia.
    + destruct (proj2 (Hin z) (or_intror Hz)) as [<- | H]; [|exact H].
      specialize (Hy y Hz). unfold lt_time in Hy. lia.
Qed.

Lemma sort_events_permutation l l' :
  Permutation l l' -> NoDup (map created_at l) ->
  sort_events l = sort_events l'.
Proof.
  intros Hperm Hnd.
  apply strictly_sorted_unique.
  - apply sort_events_strict, Hnd.
  - apply sort_events_strict.
    apply (Permutation_NoDup (Permutation_map created_at Hperm) Hnd).
  - intros x. rewrite !sort_events_In.
    split; apply Permutation_in; [exact Hperm | symmetry; exact Hperm].
Qed.

End SortFacts.

(** X1.  The order in which the events are handed over does not matter when
    their times are pairwise distinct. *)
Theorem event_order_is_irrelevant {N : JSNumber}
    (f : Ferment N) (events events' : list MoveEvent) (now : Date) :
  Permutation events events' ->
  NoDup (map created_at events) ->
  calculateFermentStatus f events now = calculateFermentStatus f events' now.
Proof.
  intros Hperm Hnd. unfold calculateFermentStatus.
  rewrite (sort_events_permutation events events' Hperm Hnd). reflexivity.
Qed.

Lemma event_order_is_irrelevant_witness :
  let f := ferment_of (N := Binary64) (of_Z 16) (TimeValue 0) "counter" in
  let events := [move (5 * hour) (Some "fridge"); move (2 * hour) (Some "counter")] in
  let events' := [move (2 * hour) (Some "counter"); move (5 * hour) (Some "fridge")] in
  Permutation events events' /\
  NoDup (map created_at events) /\
  calculateFermentStatus f events (TimeValue (8 * hour))
  = calculateFermentStatus f events' (TimeValue (8 * hour)).
Proof.
  assert (Hperm : Permutation
            [move (5 * hour) (Some "fridge"); move (2 * hour) (Some "counter")]
            [move (2 * hour) (Some "counter"); move (5 * hour) (Some "fridge")])
    by apply perm_swap.
  assert (Hnd : NoDup (map created_at
            [move (5 * hour) (Some "fridge"); move (2 * hour) (Some "counter")])).
  { constructor.
    - intros [H | []]. vm_compute in H. discriminate H.
    - constructor; [intros [] | constructor]. }
  split; [exact Hperm|]. split; [exact Hnd|].
  exact (event_order_is_irrelevant _ _ _ _ Hperm Hnd).
Defined.

Section TieFacts.
Context {N : JSNumber}.
Implicit Types (a : Acc N) (e : MoveEvent) (l : list MoveEvent).

Lemma run_loop_app l l' a : run_loop (l ++ l') a = run_loop l' (run_loop l a).
Proof. unfold run_loop. apply fold_left_app. Qed.

(** Insertion into a list that continues with a later or equal event. *)
Lemma insert_event_app_le e l c l' :
  created_at e <= created_at c ->
  insert_event e (l ++ c :: l') = insert_event e l ++ c :: l'.
Proof.
  intros Hle. induction l as [|y l IH]; simpl.
  - destruct (created_at e <=? created_at c) eqn:E; [reflexivity | lia].
  - destruct (created_at e <=? created_at y); [reflexivity|].
    rewrite IH. reflexivity.
Qed.

(** Insertion passes the events strictly before it. *)
Lemma insert_event_app_gt e l l' :
  (forall y, In y l -> created_at y < created_at e) ->
  insert_event e (l ++ l') = l ++ insert_event e l'.
Proof.
  induction l as [|y l IH]; intros Hlt; simpl; [reflexivity|].
  pose proof (Hlt y (or_introl eq_refl)).
  destruct (created_at e <=? created_at y) eqn:E; [lia|].
  rewrite IH; [reflexivity|]. intros x Hx. apply Hlt. right. exact Hx.
Qed.

(** Where insertion puts an event in a sorted list. *)
Lemma insert_event_split e l :
  StronglySorted le_time l ->
  exists A B,
    l = A ++ B /\ insert_event e l = A ++ e :: B /\
    (forall y, In y A -> created_at y < created_at e) /\
    (forall y, In y B -> created_at e <= created_at y).
Proof.
  induction 1 as [|y l Hl IH Hy]; simpl.
  - exists [], []. repeat split; try reflexivity; intros ? [].
  - destruct (created_at e <=? created_at y) eqn:E.
    + exists [], (y :: l). repeat split; try reflexivity; try (intros ? []; fail).
      intros x [<- | Hx]; [lia|].
      rewrite Forall_forall in Hy. specialize (Hy x Hx).
      unfold le_time in Hy. lia.
    + destruct IH as (A & B & -> & -> & HA & HB).
      exists (y :: A), B. repeat split; try assumption; try reflexivity.
      intros x [<- | Hx]; [lia | apply HA, Hx].
Qed.

Lemma tie_split_insert e' front S S' x :
  tie_split e' front S S' ->
  tie_split e' (if created_at x <=? created_at e' then x :: front else front)
    (insert_event x S) (insert_event x S').
Proof.
  intros (A & B & -> & -> & HA & HB & Hfront).
  destruct (created_at x <=? created_at e') eqn:E.
  - exists (insert_event x A), B. repeat split.
    + apply insert_event_app_le. lia.
    + destruct B as [|b B].
      * rewrite !app_nil_r. reflexivity.
      * apply insert_event_app_le.
        specialize (HB b (or_introl eq_refl)). lia.
    + intros y Hy. apply insert_event_In in Hy.
      destruct Hy as [-> | Hy]; [lia | apply HA, Hy].
    + exact HB.
    + intros y [<- | Hy]; apply insert_event_In; [left; reflexivity|].
      right. apply Hfront, Hy.
  - exists A, (insert_event x B). repeat split.
    + rewrite insert_event_app_gt.
      * simpl. rewrite E. reflexivity.
      * intros y Hy. specialize (HA y Hy). lia.
    + apply insert_event_app_gt. intros y Hy. specialize (HA y Hy). lia.
    + exact HA.
    + intros y Hy. apply insert_event_In in Hy.
      destruct Hy as [-> | Hy]; [lia | apply HB, Hy].
    + exact Hfront.
Qed.

Lemma tie_split_weaken e' front front' S S' :
  (forall y, In y front' -> In y front) ->
  tie_split e' front S S' -> tie_split e' front' S S'.
Proof.
  intros Hsub (A & B & HS & HS' & HA & HB & Hfront).
  exists A, B. repeat split; auto.
Qed.

Lemma tie_split_sort e' front l l3 :
  tie_split e' front (sort_events (e' :: l3)) (sort_events l3) ->
  tie_split e' front (sort_events (l ++ e' :: l3)) (sort_events (l ++ l3)).
Proof.
  intros Hbase. induction l as [|x l IH]; simpl; [exact Hbase|].
  apply (tie_split_weaken e'
           (if created_at x <=? created_at e' then x :: front else front)).
  - intros y Hy. destruct (created_at x <=? created_at e'); [right|]; exact Hy.
  - apply tie_split_insert, IH.
Qed.

Lemma tie_split_base e' l3 :
  tie_split e' [] (sort_events (e' :: l3)) (sort_events l3).
Proof.
  simpl.
  destruct (insert_event_split e' (sort_events l3) (sort_events_sorted l3))
    as (A & B & HS & HS' & HA & HB).
  exists A, B. repeat split; try assumption.
  - intros y Hy. specialize (HA y Hy). lia.
  - intros y [].
Qed.

(** An event is skipped when the array holds an event of the same time
    before it. *)
Lemma run_loop_tie e e' l1 l2 l3 a :
  created_at e' = created_at e ->
  run_loop (sort_events (l1 ++ e :: l2 ++ e' :: l3)) a
  = run_loop (sort_events (l1 ++ e :: l2 ++ l3)) a.
Proof.
  intros Htie.
  assert (Hsplit : tie_split e' [e]
                     (sort_events (l1 ++ e :: l2 ++ e' :: l3))
                     (sort_events (l1 ++ e :: l2 ++ l3))).
  { assert (H2 : tie_split e' [e]
                   (sort_events (e :: l2 ++ e' :: l3))
                   (sort_events (e :: l2 ++ l3))).
    { pose proof (tie_split_insert e' [] _ _ e
                    (tie_split_sort e' [] l2 l3 (tie_split_base e' l3))) as H.
      assert (E : (created_at e <=? created_at e') = true) by lia.
      rewrite E in H. exact H. }
    clear -H2. induction l1 as [|x l1 IH]; simpl; [exact H2|].
    apply (tie_split_weaken e'
             (if created_at x <=? created_at e' then x :: [e] else [e])).
    - intros y Hy. destruct (created_at x <=? created_at e'); [right|]; exact Hy.
    - apply tie_split_insert, IH. }
  destruct Hsplit as (A & B & HS & HS' & HA & HB & Hfront).
  rewrite HS, HS', !run_loop_app.
  change (run_loop (e' :: B) (run_loop A a))
    with (run_loop B (loop_body (run_loop A a) e')).
  rewrite loop_body_skip; [reflexivity|].
  rewrite Htie. apply run_loop_cursor_In, Hfront. left. reflexivity.
Qed.

End TieFacts.

(** X2.  Of two events with the same time, the one that comes later in the
    array has no effect. *)
Theorem later_tied_event_is_ignored {N : JSNumber}
    (f : Ferment N) (l1 l2 l3 : list MoveEvent) (e e' : MoveEvent) (now : Date) :
  created_at e' = created_at e ->
  calculateFermentStatus f (l1 ++ e :: l2 ++ e' :: l3) now
  = calculateFermentStatus f (l1 ++ e :: l2 ++ l3) now.
Proof.
  intros Htie. unfold calculateFermentStatus.
  destruct (last_fed_at f) as [|lastFed]; [reflexivity|].
  rewrite (run_loop_tie e e' l1 l2 l3 _ Htie). reflexivity.
Qed.

Lemma later_tied_event_is_ignored_witness :
  let f := ferment_of (N := Binary64) (of_Z 16) (TimeValue 0) "counter" in
  let e := move hour (Some "fridge") in
  let e' := move hour (Some "counter") in
  created_at e' = created_at e /\
  calculateFermentStatus f ([] ++ e :: [move (2 * hour) None] ++ e' :: [])
    (TimeValue (8 * hour))
  = calculateFermentStatus f ([] ++ e :: [move (2 * hour) None] ++ [])
      (TimeValue (8 * hour)).
Proof.
  split; [reflexivity|].
  apply (later_tied_event_is_ignored (N := Binary64)). reflexivity.
Defined.

Section SpeedFacts.
Context {N : JSNumber}.
Implicit Types (a : Acc N) (e : MoveEvent) (l : list MoveEvent).

Lemma locationMultiplier_by_kind (location : string) :
  locationMultiplier location
  = if is_fridge location then ndiv (of_Z 1) (of_Z 3) else of_Z 1.
Proof.
  unfold is_fridge, locationMultiplier.
  destruct (String.eqb location "counter") eqn:Ec; [|reflexivity].
  apply String.eqb_eq in Ec. subst location. reflexivity.
Qed.

Lemma locationMultiplier_is_fridge (location location' : string) :
  is_fridge location = is_fridge location' ->
  locationMultiplier location = locationMultiplier location'.
Proof.
  intros Hsame. rewrite !locationMultiplier_by_kind, Hsame. reflexivity.
Qed.

Lemma apply_move_class (location location' : string) e e' :
  is_fridge location = is_fridge location' ->
  move_class e = move_class e' ->
  is_fridge (apply_move location e) = is_fridge (apply_move location' e').
Proof.
  unfold move_class, apply_move. intros Hloc Hclass.
  destruct (new_storage_location e) as [v|];
    destruct (new_storage_location e') as [v'|];
    try destruct (truthy (Some v)); try destruct (truthy (Some v'));
    congruence.
Qed.

Lemma insert_event_same_speed e e' l l' :
  same_speed_event e e' -> Forall2 same_speed_event l l' ->
  Forall2 same_speed_event (insert_event e l) (insert_event e' l').
Proof.
  intros He Hl. induction Hl as [|y y' l l' Hy Hl IH]; simpl.
  - constructor; [exact He | constructor].
  - pose proof He as [Ht _]. pose proof Hy as [Hty _].
    rewrite <- Ht, <- Hty.
    destruct (created_at e <=? created_at y).
    + constructor; [exact He|]. constructor; assumption.
    + constructor; [exact Hy | exact IH].
Qed.

Lemma sort_events_same_speed l l' :
  Forall2 same_speed_event l l' ->
  Forall2 same_speed_event (sort_events l) (sort_events l').
Proof.
  induction 1; simpl; [constructor|].
  apply insert_event_same_speed; assumption.
Qed.

Lemma loop_body_same_speed a a' e e' :
  same_speed_acc a a' -> same_speed_event e e' ->
  same_speed_acc (loop_body a e) (loop_body a' e').
Proof.
  intros (Hc & Hs & Hl) (Ht & Hm). unfold loop_body.
  rewrite <- Ht, <- Hc.
  destruct (created_at e <=? cursor a); [repeat split; assumption|].
  repeat split; cbn [cursor stressUnits currentLocation].
  - unfold add_segment.
    rewrite Hs, (locationMultiplier_is_fridge _ _ Hl). reflexivity.
  - apply apply_move_class; assumption.
Qed.

Lemma run_loop_same_speed l l' :
  Forall2 same_speed_event l l' ->
  forall a a', same_speed_acc a a' ->
  same_speed_acc (run_loop l a) (run_loop l' a').
Proof.
  unfold run_loop.
  induction 1 as [|e e' l l' He Hl IH]; intros a a' Ha; simpl; [exact Ha|].
  apply IH, loop_body_same_speed; assumption.
Qed.

End SpeedFacts.

(** X3.  The status depends on the locations only through whether each is the
    fridge: the record's location and the locations of the events can be
    replaced by any others of the same kind, and an empty location by no
    location, without changing the result. *)
Theorem only_the_speed_of_a_location_matters {N : JSNumber}
    (interval : number) (fed : Date) (location location' : string)
    (events events' : list MoveEvent) (now : Date) :
  is_fridge location = is_fridge location' ->
  Forall2 same_speed_event events events' ->
  calculateFermentStatus (ferment_of interval fed location) events now
  = calculateFermentStatus (ferment_of interval fed location') events' now.
Proof.
  intros Hloc Hev. unfold calculateFermentStatus, ferment_of.
  cbn [last_fed_at base_feed_interval_hours].
  destruct fed as [|lastFed]; [reflexivity|].
  destruct (run_loop_same_speed _ _ (sort_events_same_speed _ _ Hev)
              (start (ferment_of interval (TimeValue lastFed) location) lastFed)
              (start (ferment_of interval (TimeValue lastFed) location') lastFed))
    as (Hc & Hs & Hl).
  { repeat split. exact Hloc. }
  unfold ferment_of in Hc, Hs, Hl. cbv zeta.
  unfold add_segment.
  rewrite Hc, Hs, (locationMultiplier_is_fridge _ _ Hl). reflexivity.
Qed.

Lemma only_the_speed_of_a_location_matters_witness :
  is_fridge "counter" = is_fridge "pantry" /\
  Forall2 same_speed_event
    [move hour (Some "fridge"); move (2 * hour) (Some "")]
    [move hour (Some "fridge"); move (2 * hour) None] /\
  calculateFermentStatus
    (ferment_of (N := Binary64) (of_Z 16) (TimeValue 0) "counter")
    [move hour (Some "fridge"); move (2 * hour) (Some "")]
    (TimeValue (8 * hour))
  = calculateFermentStatus
      (ferment_of (N := Binary64) (of_Z 16) (TimeValue 0) "pantry")
      [move hour (Some "fridge"); move (2 * hour) None]
      (TimeValue (8 * hour)).
Proof.
  assert (Hev : Forall2 same_speed_event
            [move hour (Some "fridge"); move (2 * hour) (Some "")]
            [move hour (Some "fridge"); move (2 * hour) None]).
  { constructor; [split; reflexivity|].
    constructor; [split; reflexivity | constructor]. }
  split; [reflexivity|]. split; [exact Hev|].
  exact (only_the_speed_of_a_location_matters (N := Binary64)
           _ _ "counter" "pantry" _ _ _ eq_refl Hev).
Defined.

(** * One event between the last feed and the reference time *)

(** When the loop takes exactly one event, between the last feed and the
    reference time, the stress is the sum of two products: the hours up to
    the event at the record's multiplier, the hours after it at the
    multiplier the event leaves. *)
Lemma stress_one_live_exact (f : Ferment Exact) (l : list MoveEvent)
    (e : MoveEvent) (lastFed now : Z) :
  last_fed_at f = TimeValue lastFed ->
  run_loop (sort_events l) (start f lastFed) = loop_body (start f lastFed) e ->
  lastFed < created_at e <= now ->
  strict_eq
    (stress (calculateFermentStatus f l (TimeValue now)))
    (nadd (nmul (hoursBetween (TimeValue lastFed) (TimeValue (created_at e)))
                (locationMultiplier (storage_location f)))
          (nmul (hoursBetween (TimeValue (created_at e)) (TimeValue now))
                (locationMultiplier (apply_move (storage_location f) e))))
  = true.
Proof.
  intros Hfed Hrun [Hlt Hle].
  destruct (status_valid f l (TimeValue now) lastFed Hfed) as (-> & _).
  rewrite Hrun.
  rewrite (loop_body_live_exact (start f lastFed));
    [ | exists (inject_Z 0); reflexivity | exact Hlt ].
  cbn [start cursor currentLocation stressUnits].
  unfold hoursBetween. cbn [time_of].
  rewrite !hours_exact, !locationMultiplier_exact.
  cbn [nmul nadd of_Z Exact xmul xadd].
  rewrite add_segment_exact.
  cbn [strict_eq Exact xeqb]. apply Qeq_bool_iff.
  change (inject_Z 0) with 0%Q.
  destruct (Qltb 0 (hours_q (created_at e) now)) eqn:E; [ring|].
  apply Qltb_ge in E.
  assert (Hge : (0 <= hours_q (created_at e) now)%Q).
  { pose proof (hours_q_mono (created_at e) (created_at e) now Hle).
    pose proof (hours_q_refl (created_at e)). lra. }
  assert (Hz : (hours_q (created_at e) now == 0)%Q) by lra.
  rewrite Hz. ring.
Qed.

Lemma stress_one_live_binary64 (f : Ferment Binary64) (l : list MoveEvent)
    (e : MoveEvent) (lastFed now : Z) :
  last_fed_at f = TimeValue lastFed ->
  run_loop (sort_events l) (start f lastFed) = loop_body (start f lastFed) e ->
  valid_time lastFed -> valid_time (created_at e) -> valid_time now ->
  lastFed < created_at e <= now ->
  strict_eq
    (stress (calculateFermentStatus f l (TimeValue now)))
    (nadd (nmul (hoursBetween (TimeValue lastFed) (TimeValue (created_at e)))
                (locationMultiplier (storage_location f)))
          (nmul (hoursBetween (TimeValue (created_at e)) (TimeValue now))
                (locationMultiplier (apply_move (storage_location f) e))))
  = true.
Proof.
  intros Hfed Hrun HvL Hve Hvn [Hlt Hle].
  destruct (status_valid f l (TimeValue now) lastFed Hfed) as (-> & _).
  rewrite Hrun.
  rewrite (loop_body_live_binary64 (start f lastFed));
    [ | exact HvL | exact Hve | vm_compute; reflexivity | exact Hlt ].
  cbn [start cursor currentLocation stressUnits time_of].
  set (p1 := nmul (hoursBetween (TimeValue lastFed) (TimeValue (created_at e)))
                  (locationMultiplier (storage_location f))).
  assert (Hp1 : sf_signed false (Prim2SF p1) = true).
  { apply signed_hours_times_multiplier.
    unfold hoursBetween. cbn [time_of].
    apply hours_not_negative; [assumption | assumption | lia]. }
  assert (H0 : nadd (of_Z 0) p1 = p1).
  { apply Prim2SF_inj. cbn [nadd of_Z Binary64]. rewrite add_spec.
    apply SFadd_zero_l, Hp1. }
  rewrite H0.
  assert (Hh2 : sf_signed false
                  (Prim2SF (@ndiv Binary64
                              (nsub (of_Z now) (of_Z (created_at e)))
                              ms_per_hour)) = true)
    by (apply hours_not_negative; assumption).
  rewrite (add_segment_live p1 _ _ Hp1 Hh2).
  apply strict_eq_refl_signed.
  cbn [nadd Binary64]. rewrite add_spec.
  apply SFadd_signed; [exact Hp1|].
  apply signed_hours_times_multiplier, Hh2.
Qed.

Lemma apply_move_to (location destination : string) (t : Z) :
  destination <> "" ->
  apply_move location (move t (Some destination)) = destination.
Proof.
  intros Hdest. unfold apply_move, truthy, move. cbn [new_storage_location].
  destruct (String.eqb destination "") eqn:E; [|reflexivity].
  apply String.eqb_eq in E. contradiction.
Qed.

(** X7.  One move between the last feed and the reference time: the hours
    before the move count at the record's location, the hours after it at
    the location of the move; the stress is the sum of the two products, in
    exact arithmetic and, with the operations of the floats, on binary64. *)
Theorem stress_of_one_move :
  (forall (f : Ferment Exact) (lastFed moved now : Z) (destination : string),
      last_fed_at f = TimeValue lastFed ->
      destination <> "" ->
      lastFed < moved <= now ->
      strict_eq
        (stress (calculateFermentStatus f [move moved (Some destination)]
                   (TimeValue now)))
        (nadd (nmul (hoursBetween (TimeValue lastFed) (TimeValue moved))
                    (locationMultiplier (storage_location f)))
              (nmul (hoursBetween (TimeValue moved) (TimeValue now))
                    (locationMultiplier destination))) = true)
  /\ (forall (f : Ferment Binary64) (lastFed moved now : Z)
             (destination : string),
      last_fed_at f = TimeValue lastFed ->
      valid_time lastFed -> valid_time moved -> valid_time now ->
      destination <> "" ->
      lastFed < moved <= now ->
      strict_eq
        (stress (calculateFermentStatus f [move moved (Some destination)]
                   (TimeValue now)))
        (nadd (nmul (hoursBetween (TimeValue lastFed) (TimeValue moved))
                    (locationMultiplier (storage_location f)))
              (nmul (hoursBetween (TimeValue moved) (TimeValue now))
                    (locationMultiplier destination))) = true).
Proof.
  split.
  - intros f lastFed moved now destination Hfed Hdest Hlt.
    rewrite <- (apply_move_to (storage_location f) destination moved Hdest)
      at 2.
    apply (stress_one_live_exact f _ (move moved (Some destination)));
      [exact Hfed | reflexivity | exact Hlt].
  - intros f lastFed moved now destination Hfed HvL Hvm Hvn Hdest Hlt.
    rewrite <- (apply_move_to (storage_location f) destination moved Hdest)
      at 2.
    apply (stress_one_live_binary64 f _ (move moved (Some destination)));
      [exact Hfed | reflexivity | exact HvL | exact Hvm | exact Hvn
      | exact Hlt].
Qed.

Lemma stress_of_one_move_witness :
  let f := ferment_of (N := Binary64) (of_Z 16) (TimeValue 0) "counter" in
  strict_eq
    (stress (calculateFermentStatus f [move (4 * hour) (Some "fridge")]
               (TimeValue (10 * hour))))
    (nadd (nmul (hoursBetween (TimeValue 0) (TimeValue (4 * hour)))
                (locationMultiplier (storage_location f)))
          (nmul (hoursBetween (TimeValue (4 * hour)) (TimeValue (10 * hour)))
                (locationMultiplier "fridge"))) = true.
Proof.
  apply (proj2 stress_of_one_move
           (ferment_of (N := Binary64) (of_Z 16) (TimeValue 0) "counter") 0).
  - reflexivity.
  - unfold valid_time. vm_compute. split; discriminate.
  - unfold valid_time. vm_compute. split; discriminate.
  - unfold valid_time. vm_compute. split; discriminate.
  - discriminate.
  - split; [reflexivity | vm_compute; discriminate].
Defined.

(** * The query text, the grouping of the rows and the page *)

Lemma sql_text_from_defined {V W : Type} (strings : list string) :
  forall (i : nat) (acc : string)
         (params : list (option V)) (params' : list (option W)),
  defined params = defined params' ->
  sql_text_from i acc strings params = sql_text_from i acc strings params'.
Proof.
  induction strings as [|str rest IH]; intros i acc params params' Hdef;
    simpl; [reflexivity|].
  assert (Hnth : match nth_error params i with
                 | Some (Some _) => placeholder i
                 | _ => ""
                 end
                 = match nth_error params' i with
                   | Some (Some _) => placeholder i
                   | _ => ""
                   end).
  { pose proof (f_equal (fun l => nth_error l i) Hdef) as H.
    unfold defined in H. simpl in H. rewrite !nth_error_map in H.
    destruct (nth_error params i) as [[v|]|];
      destruct (nth_error params' i) as [[w|]|];
      simpl in H; try discriminate; reflexivity. }
  rewrite Hnth. apply IH, Hdef.
Qed.

(** X9.  The text of a query depends on the chunks of the template and on
    which parameters are defined, never on the values of the parameters. *)
Theorem sql_text_ignores_the_values {V W : Type}
    (strings : list string)
    (params : list (option V)) (params' : list (option W)) :
  defined params = defined params' ->
  sql_text strings params = sql_text strings params'.
Proof. apply sql_text_from_defined. Qed.

Lemma moves_get_set_same (key : string) (value : list EventRow)
    (acc : MovesByFerment) :
  moves_get key (moves_set key value acc) = Some value.
Proof.
  induction acc as [|[k v] acc IH]; simpl.
  - rewrite String.eqb_refl. reflexivity.
  - destruct (String.eqb k key) eqn:E; simpl; rewrite E; [reflexivity | exact IH].
Qed.

Lemma sql_text_ignores_the_values_witness :
  defined [Some 7; None; Some 9] = defined [Some "a"; None; Some "b"] /\
  sql_text ["SELECT "; ", "; ", "; " FROM t"] [Some 7; None; Some 9]
  = sql_text ["SELECT "; ", "; ", "; " FROM t"] [Some "a"; None; Some "b"].
Proof.
  split; [reflexivity|].
  apply sql_text_ignores_the_values. reflexivity.
Defined.

Lemma moves_get_set_other (key key' : string) (value : list EventRow)
    (acc : MovesByFerment) :
  key <> key' ->
  moves_get key' (moves_set key value acc) = moves_get key' acc.
Proof.
  intros Hne. induction acc as [|[k v] acc IH]; simpl.
  - destruct (String.eqb key key') eqn:E; [|reflexivity].
    apply String.eqb_eq in E. contradiction.
  - destruct (String.eqb k key) eqn:E; simpl.
    + apply String.eqb_eq in E. subst k.
      destruct (String.eqb key key') eqn:E'; [|reflexivity].
      apply String.eqb_eq in E'. contradiction.
    + destruct (String.eqb k key'); [reflexivity | exact IH].
Qed.

Lemma moves_of_group_step (acc : MovesByFerment) (ev : EventRow) (key : string) :
  moves_of (group_step acc ev) key
  = if String.eqb (ferment_id ev) key then moves_of acc key ++ [ev]
    else moves_of acc key.
Proof.
  unfold group_step, moves_of. cbv zeta.
  destruct (String.eqb (ferment_id ev) key) eqn:E.
  - apply String.eqb_eq in E. subst key.
    destruct (moves_get (ferment_id ev) acc) as [arr|] eqn:G.
    + rewrite ?G, moves_get_set_same. reflexivity.
    + rewrite !moves_get_set_same. reflexivity.
  - assert (Hne : ferment_id ev <> key)
      by (intros Heq; rewrite Heq, String.eqb_refl in E; discriminate).
    destruct (moves_get (ferment_id ev) acc) as [arr|] eqn:G.
    + rewrite ?G, moves_get_set_other by exact Hne. reflexivity.
    + rewrite moves_get_set_same, !moves_get_set_other by exact Hne.
      reflexivity.
Qed.

Lemma moves_of_fold (rows : list EventRow) (key : string) :
  forall acc,
  moves_of (fold_left group_step rows acc) key
  = moves_of acc key
    ++ filter (fun ev => String.eqb (ferment_id ev) key) rows.
Proof.
  induction rows as [|ev rows IH]; intros acc; simpl.
  - rewrite app_nil_r. reflexivity.
  - rewrite IH, moves_of_group_step.
    destruct (String.eqb (ferment_id ev) key); [|reflexivity].
    rewrite <- app_assoc. reflexivity.
Qed.

(** Looking a ferment up in the grouped rows gives exactly the rows of that
    ferment, in the order of the result set, and no rows for a ferment
    without events. *)
Lemma moves_of_group_moves (rows : list EventRow) (key : string) :
  moves_of (group_moves rows) key
  = filter (fun ev => String.eqb (ferment_id ev) key) rows.
Proof. unfold group_moves. rewrite moves_of_fold. reflexivity. Qed.

(** X10.  On the home page every ferment is judged on its own events only:
    its status is the one computed from the rows that carry its id, whatever
    other rows the result set holds, and the ferments keep their order. *)
Theorem each_ferment_is_judged_on_its_own_events {N : JSNumber}
    (ferments : list (FermentRow N)) (rows : list EventRow) (now : Date) :
  ferments_with_status ferments rows now
  = map (fun f =>
           (f, calculateFermentStatus (ferment f)
                 (map event
                    (filter (fun ev => String.eqb (ferment_id ev) (row_id f))
                            rows))
                 now))
        ferments.
Proof.
  unfold ferments_with_status.
  destruct ferments as [|f0 ferments]; [reflexivity|].
  cbn [map List.length Nat.ltb Nat.leb].
  rewrite !moves_of_group_moves. f_equal.
  apply map_ext. intros f. rewrite moves_of_group_moves. reflexivity.
Qed.

(** X11.  The move button never offers the location the ferment is in, always
    offers the counter or the fridge, and from the counter or the fridge
    two presses lead back; from any other location it offers the counter,
    which runs at the same speed. *)
Theorem move_button_toggles {N : JSNumber} (location : string) :
  moveTarget location <> location /\
  (moveTarget location = "counter" \/ moveTarget location = "fridge") /\
  (location = "counter" \/ location = "fridge" ->
   moveTarget (moveTarget location) = location) /\
  (location <> "counter" -> location <> "fridge" ->
   locationMultiplier (moveTarget location) = locationMultiplier location).
Proof.
  unfold moveTarget.
  destruct (String.eqb location "counter") eqn:E.
  - apply String.eqb_eq in E. subst location.
    repeat split; try discriminate; auto.
    intros H. contradiction.
  - assert (Hne : location <> "counter")
      by (intros ->; discriminate E).
    repeat split; auto.
    + intros [H | ->]; [contradiction | reflexivity].
    + intros _ Hf. apply locationMultiplier_is_fridge.
      unfold is_fridge. simpl.
      destruct (String.eqb location "fridge") eqn:F; [|reflexivity].
      apply String.eqb_eq in F. contradiction.
Qed.

Section ColourFacts.

Lemma statusColour_red (label : string) :
  statusColour label = "#f87171" <-> label = "needs_feed".
Proof.
  unfold statusColour.
  destruct (String.eqb label "needs_feed") eqn:E.
  - apply String.eqb_eq in E. tauto.
  - assert (label <> "needs_feed")
      by (intros Heq; rewrite Heq in E; discriminate).
    destruct (String.eqb label "due_soon"); split; intros H';
      try discriminate H'; contradiction.
Qed.

(** A finite number that is not below 1 is at least 1. *)
Lemma not_ltb_one_leb (r : float) :
  is_finite r = true -> (r <? 1)%float = false -> (1 <=? r)%float = true.
Proof.
  rewrite is_finite_spec, ltb_spec, leb_spec. unfold SFltb, SFleb.
  rewrite (SFcompare_antisym (Prim2SF r) (Prim2SF 1%float)).
  change (Prim2SF 1%float) with (S754_finite false 4503599627370496 (-52)).
  destruct (Prim2SF r) as [s|s| |s m e]; try discriminate;
    destruct (SFcompare _ _) as [[| |]|] eqn:C; simpl;
    try discriminate; try reflexivity.
Qed.

End ColourFacts.

(** X12.  The badge is red exactly when the label is "needs_feed", that is,
    with a valid last feed, when the ratio is finite and at least 1; a
    ratio that is not finite is never red (exact arithmetic and binary64),
    and neither is an unparseable last feed. *)
Theorem badge_is_red_when_the_ratio_reaches_one :
  (forall (f : Ferment Exact) (events : list MoveEvent) (now : Date)
          (lastFed : Z),
      last_fed_at f = TimeValue lastFed ->
      let r := calculateFermentStatus f events now in
      statusColour (label r) = "#f87171"
      <-> exists q, ratio r = XFin q /\ (1 <= q)%Q)
  /\ (forall (f : Ferment Binary64) (events : list MoveEvent) (now : Date)
             (lastFed : Z),
      last_fed_at f = TimeValue lastFed ->
      let r := calculateFermentStatus f events now in
      statusColour (label r) = "#f87171"
      <-> is_finite (ratio r) = true /\ (1 <=? ratio r)%float = true)
  /\ (forall (N : JSNumber) (f : Ferment N) (events : list MoveEvent)
             (now : Date),
      last_fed_at f = InvalidDate ->
      statusColour (label (calculateFermentStatus f events now)) = "#4ade80").
Proof.
  split; [|split].
  - intros f events now lastFed Hfed r. subst r.
    rewrite statusColour_red.
    destruct (status_valid f events now lastFed Hfed) as (_ & _ & ->).
    destruct (ratio (calculateFermentStatus f events now)) as [| s | q].
    + split; [discriminate | intros (q & H & _); discriminate H].
    + split; [discriminate | intros (q & H & _); discriminate H].
    + rewrite label_of_exact. split.
      * intros H. exists q. split; [reflexivity|].
        destruct (Qltb q (7 # 10)) eqn:E7; [discriminate H|].
        destruct (Qltb q 1) eqn:E1; [discriminate H|].
        apply Qltb_ge, E1.
      * intros (q' & Hq & Hle). injection Hq as <-.
        assert (E7 : Qltb q (7 # 10) = false) by (apply Qltb_ge; lra).
        assert (E1 : Qltb q 1 = false) by (apply Qltb_ge; exact Hle).
        rewrite E7, E1. reflexivity.
  - intros f events now lastFed Hfed r. subst r.
    rewrite statusColour_red.
    destruct (status_valid f events now lastFed Hfed) as (_ & _ & ->).
    rewrite label_of_binary64. split.
    + destruct (is_finite _) eqn:Hfin; cbn [negb]; [|discriminate].
      destruct (_ <? 0x1.6666666666666p-1)%float; [discriminate|].
      destruct (_ <? 1)%float eqn:E1; [discriminate|].
      intros _. split; [reflexivity|].
      apply not_ltb_one_leb; assumption.
    + intros [Hfin Hle]. rewrite Hfin. cbn [negb].
      rewrite (leb_one_not_ltb_0_7 _ Hle), (leb_not_ltb _ _ Hle).
      reflexivity.
  - intros N f events now Hfed.
    unfold calculateFermentStatus. rewrite Hfed. reflexivity.
Qed.

Lemma badge_is_red_when_the_ratio_reaches_one_witness :
  let f := ferment_of (N := Binary64) (of_Z 16) (TimeValue 0) "counter" in
  let r := calculateFermentStatus f [] (TimeValue (20 * hour)) in
  last_fed_at f = TimeValue 0 /\
  (statusColour (label r) = "#f87171"
   <-> is_finite (ratio r) = true /\ (1 <=? ratio r)%float = true).
Proof.
  split; [reflexivity|].
  apply (proj1 (proj2 badge_is_red_when_the_ratio_reaches_one)
           (ferment_of (N := Binary64) (of_Z 16) (TimeValue 0) "counter")
           [] (TimeValue (20 * hour)) 0).
  reflexivity.
Defined.

(** * The routes that write *)

Section RouteFacts.
Context {N : JSNumber}.
Implicit Types (db : Db N) (r : FermentRow N) (ev : EventRow).

Lemma status_on_page_in_list (ferments : list (FermentRow N))
    (rows : list EventRow) (now : Date) f :
  In f ferments ->
  In (f, status_on_page f rows now) (ferments_with_status ferments rows now).
Proof.
  intros Hin. unfold ferments_with_status, status_on_page.
  destruct ferments as [|f0 ferments]; [destruct Hin|].
  cbn [map List.length Nat.ltb Nat.leb].
  apply (in_map (fun f => (f, calculateFermentStatus (ferment f)
                                  (map event (moves_of (group_moves rows) (row_id f)))
                                  now)) (f0 :: ferments) f Hin).
Qed.

Lemma row_id_set_last_fed_at id now r :
  row_id (set_last_fed_at id now r) = row_id r.
Proof. unfold set_last_fed_at. destruct (String.eqb (row_id r) id); reflexivity. Qed.

Lemma row_id_set_storage_location id to r :
  row_id (set_storage_location id to r) = row_id r.
Proof.
  unfold set_storage_location. destruct (String.eqb (row_id r) id); reflexivity.
Qed.

(** The events the page hands over for a ferment of the table are its
    logged moves. *)
Lemma page_events_In db rows r (e : MoveEvent) :
  moves_result db rows ->
  In r (ferments_table db) ->
  In e (map event (moves_of (group_moves rows) (row_id r)))
  <-> exists ev, In ev (events_table db) /\ ferment_id ev = row_id r /\
                 event_type ev = "move" /\ event ev = e.
Proof.
  intros Hres Hr. rewrite moves_of_group_moves, in_map_iff.
  split.
  - intros (ev & <- & Hev). apply filter_In in Hev. destruct Hev as [Hev Hid].
    apply (Permutation_in _ Hres) in Hev.
    unfold selected_moves in Hev. apply filter_In in Hev.
    destruct Hev as [Htab Hsel]. apply andb_true_iff in Hsel.
    exists ev. repeat split; try assumption.
    + apply String.eqb_eq, Hid.
    + apply String.eqb_eq, (proj1 Hsel).
  - intros (ev & Htab & Hid & Htype & <-). exists ev. split; [reflexivity|].
    apply filter_In. split; [|apply String.eqb_eq, Hid].
    apply (Permutation_in _ (Permutation_sym Hres)).
    unfold selected_moves. apply filter_In. split; [exact Htab|].
    apply andb_true_iff. split; [apply String.eqb_eq, Htype|].
    apply existsb_exists. exists (row_id r). split.
    + apply in_map, Hr.
    + apply String.eqb_eq, Hid.
Qed.

(** A list made of stale events and of copies of one later event runs like
    that event alone. *)
Lemma run_loop_one_live (lastFed : Z) (e : MoveEvent) (l : list MoveEvent)
    (a : Acc N) :
  cursor a = lastFed ->
  lastFed < created_at e ->
  In e l ->
  (forall x, In x l -> x = e \/ created_at x <= lastFed) ->
  run_loop (sort_events l) a = loop_body a e.
Proof.
  intros Hc Hlt Hin Hall.
  rewrite (run_loop_filter lastFed) by lia.
  assert (Hlive : forall x,
            In x (filter (fun x => lastFed <? created_at x) (sort_events l)) ->
            x = e).
  { intros x Hx. apply filter_In in Hx. destruct Hx as [Hx Ht].
    apply (proj1 (sort_events_In x l)) in Hx. destruct (Hall x Hx) as [-> | Hle];
      [reflexivity | lia]. }
  assert (Hne : In e (filter (fun x => lastFed <? created_at x) (sort_events l))).
  { apply filter_In. split; [apply sort_events_In, Hin | lia]. }
  revert Hlive Hne.
  generalize (filter (fun x => lastFed <? created_at x) (sort_events l)).
  intros live Hlive Hne.
  destruct live as [|x live]; [destruct Hne|].
  assert (x = e) as -> by (apply Hlive; left; reflexivity).
  change (run_loop (e :: live) a) with (run_loop live (loop_body a e)).
  assert (Hrest : forall y, In y live -> y = e)
    by (intros y Hy; apply Hlive; right; exact Hy).
  clear Hlive Hne.
  assert (Hcur : created_at e <= cursor (loop_body a e))
    by (rewrite loop_body_cursor; lia).
  revert Hcur. generalize (loop_body a e) as b.
  induction live as [|y live IH]; intros b Hb; [reflexivity|].
  assert (y = e) as -> by (apply Hrest; left; reflexivity).
  change (run_loop (e :: live) b) with (run_loop live (loop_body b e)).
  rewrite (loop_body_skip b e Hb).
  apply IH; [|exact Hb]. intros z Hz. apply Hrest. right. exact Hz.
Qed.

End RouteFacts.

Section FeedFacts.

(** After a feed every event the page hands over for the ferment is stale. *)
Lemma page_events_after_feed {N : JSNumber} (db : Db N) (id : string)
    (fed : Z) (r : FermentRow N) (rows : list EventRow) :
  In r (ferments_table db) ->
  row_id r = id ->
  (forall ev, In ev (events_table db) -> ferment_id ev = id ->
              created_at (event ev) <= fed) ->
  moves_result (post_feed id fed db) rows ->
  In (set_last_fed_at id fed r) (ferments_table (post_feed id fed db)) /\
  forall e,
    In e (map event (moves_of (group_moves rows)
                       (row_id (set_last_fed_at id fed r)))) ->
    created_at e <= fed.
Proof.
  intros Hr Hid Hold Hres.
  assert (Hr' : In (set_last_fed_at id fed r)
                   (ferments_table (post_feed id fed db)))
    by (apply in_map, Hr).
  split; [exact Hr'|].
  intros e He.
  apply (page_events_In _ rows _ e Hres Hr') in He.
  destruct He as (ev & Htab & Hevid & Htype & <-).
  rewrite row_id_set_last_fed_at, Hid in Hevid.
  cbn [post_feed events_table] in Htab. apply in_app_or in Htab.
  destruct Htab as [Htab | [<- | []]].
  - apply Hold; assumption.
  - discriminate Htype.
Qed.

End FeedFacts.

(** X13.  After [POST /ferments/:id/feed] at [fed], with no event of the
    ferment logged later than that, the page shows for it the hours since
    the feed times the multiplier of its location: nothing at the instant of
    the feed.  In exact arithmetic and on binary64. *)
Theorem feed_restarts_the_stress :
  (forall (db : Db Exact) (id : string) (fed now : Z) (r : FermentRow Exact)
          (rows : list EventRow),
      In r (ferments_table db) ->
      row_id r = id ->
      (forall ev, In ev (events_table db) -> ferment_id ev = id ->
                  created_at (event ev) <= fed) ->
      moves_result (post_feed id fed db) rows ->
      fed <= now ->
      In (set_last_fed_at id fed r) (ferments_table (post_feed id fed db)) /\
      strict_eq
        (stress (status_on_page (set_last_fed_at id fed r) rows
                   (TimeValue now)))
        (nmul (hoursBetween (TimeValue fed) (TimeValue now))
              (locationMultiplier (storage_location (ferment r)))) = true)
  /\ (forall (db : Db Binary64) (id : string) (fed now : Z)
             (r : FermentRow Binary64) (rows : list EventRow),
      In r (ferments_table db) ->
      row_id r = id ->
      (forall ev, In ev (events_table db) -> ferment_id ev = id ->
                  created_at (event ev) <= fed) ->
      moves_result (post_feed id fed db) rows ->
      valid_time fed -> valid_time now ->
      fed <= now ->
      In (set_last_fed_at id fed r) (ferments_table (post_feed id fed db)) /\
      strict_eq
        (stress (status_on_page (set_last_fed_at id fed r) rows
                   (TimeValue now)))
        (nmul (hoursBetween (TimeValue fed) (TimeValue now))
              (locationMultiplier (storage_location (ferment r)))) = true).
Proof.
  split.
  - intros db id fed now r rows Hr Hid Hold Hres Hle.
    destruct (page_events_after_feed db id fed r rows Hr Hid Hold Hres)
      as [Hr' Hstale].
    split; [exact Hr'|].
    unfold status_on_page.
    set (evs := map event _) in *.
    assert (Hfed : last_fed_at (ferment (set_last_fed_at id fed r))
                   = TimeValue fed).
    { unfold set_last_fed_at. rewrite Hid, String.eqb_refl. reflexivity. }
    assert (Hloc : storage_location (ferment (set_last_fed_at id fed r))
                   = storage_location (ferment r)).
    { unfold set_last_fed_at. rewrite Hid, String.eqb_refl. reflexivity. }
    destruct (status_valid _ evs (TimeValue now) fed Hfed) as (-> & _).
    rewrite (run_loop_all_stale _ evs fed Hstale).
    cbn [start cursor currentLocation stressUnits]. rewrite Hloc.
    change (of_Z 0) with (XFin 0). rewrite final_segment.
    unfold hoursBetween. cbn [time_of].
    rewrite hours_exact, locationMultiplier_exact.
    cbn [nmul strict_eq Exact xmul xeqb]. apply Qeq_bool_iff.
    destruct (Qltb 0 (hours_q fed now)) eqn:E; [lra|].
    apply Qltb_ge in E.
    pose proof (hours_q_mono fed fed now Hle).
    pose proof (hours_q_refl fed).
    assert (Hz : (hours_q fed now == 0)%Q) by lra.
    rewrite Hz. lra.
  - intros db id fed now r rows Hr Hid Hold Hres Hvf Hvn Hle.
    destruct (page_events_after_feed db id fed r rows Hr Hid Hold Hres)
      as [Hr' Hstale].
    split; [exact Hr'|].
    unfold status_on_page.
    set (evs := map event _) in *.
    assert (Hfed : last_fed_at (ferment (set_last_fed_at id fed r))
                   = TimeValue fed).
    { unfold set_last_fed_at. rewrite Hid, String.eqb_refl. reflexivity. }
    assert (Hloc : storage_location (ferment (set_last_fed_at id fed r))
                   = storage_location (ferment r)).
    { unfold set_last_fed_at. rewrite Hid, String.eqb_refl. reflexivity. }
    destruct (status_valid _ evs (TimeValue now) fed Hfed) as (-> & _).
    rewrite (run_loop_all_stale _ evs fed Hstale).
    cbn [start cursor currentLocation stressUnits]. rewrite Hloc.
    unfold hoursBetween. cbn [time_of].
    apply add_segment_from_zero, hours_not_negative; assumption.
Qed.

Lemma feed_restarts_the_stress_witness :
  let a := {| row_id := "a";
              ferment := ferment_of (N := Binary64) (of_Z 16) (TimeValue 0)
                           "fridge" |} in
  let b := {| row_id := "b";
              ferment := ferment_of (N := Binary64) (of_Z 24) (TimeValue 0)
                           "counter" |} in
  let db := {| ferments_table := [a; b];
               events_table :=
                 [{| ferment_id := "a"; event_type := "move";
                     event := move hour (Some "fridge") |};
                  {| ferment_id := "b"; event_type := "move";
                     event := move (2 * hour) (Some "counter") |}] |} in
  let rows := selected_moves (post_feed "a" (3 * hour) db) in
  In (set_last_fed_at "a" (3 * hour) a)
     (ferments_table (post_feed "a" (3 * hour) db)) /\
  strict_eq
    (stress (status_on_page (set_last_fed_at "a" (3 * hour) a) rows
               (TimeValue (5 * hour))))
    (nmul (hoursBetween (TimeValue (3 * hour)) (TimeValue (5 * hour)))
          (locationMultiplier "fridge")) = true.
Proof.
  cbv zeta.
  apply (proj2 feed_restarts_the_stress).
  - left. reflexivity.
  - reflexivity.
  - intros ev [<- | [<- | []]] _; vm_compute; discriminate.
  - apply Permutation_refl.
  - vm_compute. split; discriminate.
  - vm_compute. split; discriminate.
  - vm_compute. discriminate.
Defined.

(** X14.  After [POST /ferments/:id/move] at [moved], the first move since the
    last feed, the page weighs the hours before the move, like the hours
    after it, with the multiplier of the destination: the record holds the
    destination by the time the status is computed, so the hours before the
    move do not count at the location the ferment was in.  In exact
    arithmetic and, with the operations of the floats, on binary64. *)
Theorem move_is_applied_to_the_hours_before_it :
  (forall (db : Db Exact) (id to : string) (lastFed moved now : Z)
          (r : FermentRow Exact) (rows : list EventRow),
      In r (ferments_table db) ->
      row_id r = id ->
      last_fed_at (ferment r) = TimeValue lastFed ->
      (forall ev, In ev (events_table db) -> ferment_id ev = id ->
                  created_at (event ev) <= lastFed) ->
      to <> "" ->
      lastFed < moved <= now ->
      moves_result (post_move id to moved db) rows ->
      In (set_storage_location id to r)
         (ferments_table (post_move id to moved db))
      /\ strict_eq
           (stress (status_on_page (set_storage_location id to r) rows
                      (TimeValue now)))
           (nadd (nmul (hoursBetween (TimeValue lastFed) (TimeValue moved))
                       (locationMultiplier to))
                 (nmul (hoursBetween (TimeValue moved) (TimeValue now))
                       (locationMultiplier to))) = true)
  /\ (forall (db : Db Binary64) (id to : string) (lastFed moved now : Z)
             (r : FermentRow Binary64) (rows : list EventRow),
      In r (ferments_table db) ->
      row_id r = id ->
      last_fed_at (ferment r) = TimeValue lastFed ->
      (forall ev, In ev (events_table db) -> ferment_id ev = id ->
                  created_at (event ev) <= lastFed) ->
      valid_time lastFed -> valid_time moved -> valid_time now ->
      to <> "" ->
      lastFed < moved <= now ->
      moves_result (post_move id to moved db) rows ->
      In (set_storage_location id to r)
         (ferments_table (post_move id to moved db))
      /\ strict_eq
           (stress (status_on_page (set_storage_location id to r) rows
                      (TimeValue now)))
           (nadd (nmul (hoursBetween (TimeValue lastFed) (TimeValue moved))
                       (locationMultiplier to))
                 (nmul (hoursBetween (TimeValue moved) (TimeValue now))
                       (locationMultiplier to))) = true).
Proof.
  assert (Hpage : forall (N : JSNumber) (db : Db N) (id to : string)
            (lastFed moved : Z) (r : FermentRow N) (rows : list EventRow),
      In r (ferments_table db) ->
      row_id r = id ->
      last_fed_at (ferment r) = TimeValue lastFed ->
      (forall ev, In ev (events_table db) -> ferment_id ev = id ->
                  created_at (event ev) <= lastFed) ->
      lastFed < moved ->
      moves_result (post_move id to moved db) rows ->
      In (set_storage_location id to r)
         (ferments_table (post_move id to moved db))
      /\ last_fed_at (ferment (set_storage_location id to r))
         = TimeValue lastFed
      /\ storage_location (ferment (set_storage_location id to r)) = to
      /\ run_loop
           (sort_events
              (map event (moves_of (group_moves rows)
                            (row_id (set_storage_location id to r)))))
           (start (ferment (set_storage_location id to r)) lastFed)
         = loop_body (start (ferment (set_storage_location id to r)) lastFed)
             (move moved (Some to))).
  { intros N db id to lastFed moved r rows Hr Hid Hfed Hold Hlt Hres.
    assert (Hr' : In (set_storage_location id to r)
                     (ferments_table (post_move id to moved db)))
      by (apply in_map, Hr).
    split; [exact Hr'|].
    split; [unfold set_storage_location; rewrite Hid, String.eqb_refl;
            exact Hfed|].
    split; [unfold set_storage_location; rewrite Hid, String.eqb_refl;
            reflexivity|].
    assert (Hin : forall x,
              In x (map event (moves_of (group_moves rows)
                                 (row_id (set_storage_location id to r))))
              <-> exists ev, In ev (events_table (post_move id to moved db)) /\
                             ferment_id ev = id /\ event_type ev = "move" /\
                             event ev = x).
    { intros x. rewrite (page_events_In _ rows _ x Hres Hr').
      rewrite row_id_set_storage_location, Hid. reflexivity. }
    apply (run_loop_one_live lastFed).
    - reflexivity.
    - exact Hlt.
    - apply Hin.
      exists {| ferment_id := id; event_type := "move";
                event := move moved (Some to) |}.
      repeat split. cbn [post_move events_table].
      apply in_or_app. right. left. reflexivity.
    - intros x Hx. apply Hin in Hx.
      destruct Hx as (ev & Htab & Hevid & Htype & <-).
      cbn [post_move events_table] in Htab. apply in_app_or in Htab.
      destruct Htab as [Htab | [<- | []]].
      + right. apply Hold; assumption.
      + left. reflexivity. }
  split.
  - intros db id to lastFed moved now r rows Hr Hid Hfed Hold Hto Hlt Hres.
    destruct (Hpage _ db id to lastFed moved r rows Hr Hid Hfed Hold
                (proj1 Hlt) Hres) as (Hr' & Hfed' & Hloc & Hrun).
    split; [exact Hr'|].
    unfold status_on_page.
    pose proof (stress_one_live_exact _ _ (move moved (Some to)) lastFed now
                  Hfed' Hrun Hlt) as Hs.
    rewrite Hloc, (apply_move_to to to moved Hto) in Hs. exact Hs.
  - intros db id to lastFed moved now r rows Hr Hid Hfed Hold HvL Hvm Hvn
           Hto Hlt Hres.
    destruct (Hpage _ db id to lastFed moved r rows Hr Hid Hfed Hold
                (proj1 Hlt) Hres) as (Hr' & Hfed' & Hloc & Hrun).
    split; [exact Hr'|].
    unfold status_on_page.
    pose proof (stress_one_live_binary64 _ _ (move moved (Some to)) lastFed
                  now Hfed' Hrun HvL Hvm Hvn Hlt) as Hs.
    rewrite Hloc, (apply_move_to to to moved Hto) in Hs. exact Hs.
Qed.

Lemma move_is_applied_to_the_hours_before_it_witness :
  let a := {| row_id := "a";
              ferment := ferment_of (N := Binary64) (of_Z 16) (TimeValue 0)
                           "counter" |} in
  let db := {| ferments_table := [a];
               events_table :=
                 [{| ferment_id := "a"; event_type := "feed";
                     event := move 0 None |}] |} in
  let rows := selected_moves (post_move "a" "fridge" (9 * hour) db) in
  In (set_storage_location "a" "fridge" a)
     (ferments_table (post_move "a" "fridge" (9 * hour) db)) /\
  strict_eq
    (stress (status_on_page (set_storage_location "a" "fridge" a) rows
               (TimeValue (12 * hour))))
    (nadd (nmul (hoursBetween (TimeValue 0) (TimeValue (9 * hour)))
                (locationMultiplier "fridge"))
          (nmul (hoursBetween (TimeValue (9 * hour)) (TimeValue (12 * hour)))
                (locationMultiplier "fridge"))) = true.
Proof.
  cbv zeta.
  apply (proj2 move_is_applied_to_the_hours_before_it
           _ "a" "fridge" 0 (9 * hour)).
  - left. reflexivity.
  - reflexivity.
  - reflexivity.
  - intros ev [<- | []] _. vm_compute. discriminate.
  - unfold valid_time. vm_compute. split; discriminate.
  - unfold valid_time. vm_compute. split; discriminate.
  - unfold valid_time. vm_compute. split; discriminate.
  - discriminate.
  - split; [reflexivity | vm_compute; discriminate].
  - apply Permutation_refl.
Defined.

Section IsolationFacts.
Context {N : JSNumber}.






End IsolationFacts.


